(** * The agent pipeline of the Fanar writing copilot

    A shallow embedding of the query rewriter, the tool planner, the
    synthesizer and the pipeline coordinator
    ([agents/query_rewriter.py], [agents/tool_usage_agent.py],
    [agents/synthesis_agent.py], [orchestrator.py], with the two services
    they call), and the properties of the pipeline stated over it.

    Python [str] values are sequences of Unicode code points: a string is a
    [list N].  Calls that leave the process (chat completion, retrieval,
    web search, the wall clock) are fields of an environment record and run
    in a state-and-exception monad over an arbitrary world state. *)

From Stdlib Require Import ZArith NArith QArith List Lia.
From Stdlib Require Import QArith.Qpower.
From Stdlib Require Import Strings.String Strings.Ascii.
From Stdlib Require Import Numbers.DecimalString Numbers.DecimalNat.
From stdpp Require Import base option list gmap.

Local Open Scope nat_scope.

(** ** Python strings *)

Module PyStr.

Abbreviation char := N (only parsing).
Abbreviation str := (list N) (only parsing).

(** A literal of the source, code point by code point (ASCII literals). *)
Definition py (s : string) : str :=
  List.map N_of_ascii (list_ascii_of_string s).
Arguments py s%_string.

Definition lt_sign : char := 60%N.
Definition gt_sign : char := 62%N.
Definition newline : char := 10%N.

(** [str.isspace] on one code point: the code points Python strips. *)
Definition isspace (c : char) : bool :=
  ((9 <=? c) && (c <=? 13) || (28 <=? c) && (c <=? 32)
   || (c =? 133) || (c =? 160) || (c =? 5760)
   || (8192 <=? c) && (c <=? 8202)
   || (c =? 8232) || (c =? 8233) || (c =? 8239) || (c =? 8287)
   || (c =? 12288))%N.

Fixpoint lstrip (s : str) : str :=
  match s with
  | c :: s' => if isspace c then lstrip s' else s
  | [] => []
  end.

Fixpoint rstrip (s : str) : str :=
  match s with
  | c :: s' =>
      match rstrip s' with
      | [] => if isspace c then [] else [c]
      | r => c :: r
      end
  | [] => []
  end.

(** [s.strip()] *)
Definition strip (s : str) : str := rstrip (lstrip s).

(** [s.startswith(p)] *)
Fixpoint startswith (p s : str) : bool :=
  match p, s with
  | [], _ => true
  | a :: p', b :: s' => (a =? b)%N && startswith p' s'
  | _ :: _, [] => false
  end.

(** [s.endswith(p)] *)
Definition endswith (p s : str) : bool := startswith (rev p) (rev s).

(** [p in s] *)
Fixpoint contains (p s : str) : bool :=
  startswith p s ||
  match s with
  | _ :: s' => contains p s'
  | [] => false
  end.

(** The text before and the text after the leftmost occurrence of [p]. *)
Fixpoint find_sub (p s : str) : option (str * str) :=
  if startswith p s then Some ([], drop (length p) s)
  else match s with
       | c :: s' =>
           match find_sub p s' with
           | Some (before, after) => Some (c :: before, after)
           | None => None
           end
       | [] => None
       end.

(** [s.split(sep, 1)] *)
Definition split1 (sep s : str) : list str :=
  match find_sub sep s with
  | Some (before, after) => [before; after]
  | None => [s]
  end.

(** [s.split(c)] for a one-character separator: never the empty list. *)
Fixpoint split_char (sep : char) (s : str) : list str :=
  match s with
  | c :: s' =>
      if (c =? sep)%N then [] :: split_char sep s'
      else match split_char sep s' with
           | w :: ws => (c :: w) :: ws
           | [] => [[c]]
           end
  | [] => [[]]
  end.

(** [sep.join(parts)] *)
Fixpoint join (sep : str) (parts : list str) : str :=
  match parts with
  | [] => []
  | [p] => p
  | p :: ps => p ++ sep ++ join sep ps
  end.

(** [s.replace(old, new)]: leftmost occurrences, left to right, never
    overlapping; the replacement text is not scanned again.  With an empty
    [old] Python puts [new] around every character. *)
Fixpoint replace_fuel (fuel : nat) (old new s : str) : str :=
  match fuel with
  | 0 => s
  | S fuel' =>
      match s with
      | [] => []
      | c :: s' =>
          if startswith old s
          then new ++ replace_fuel fuel' old new (drop (length old) s)
          else c :: replace_fuel fuel' old new s'
      end
  end.

Definition replace (old new s : str) : str :=
  match old with
  | [] => new ++ flat_map (fun c => c :: new) s
  | _ :: _ => replace_fuel (length s) old new s
  end.

(** [re.findall(open(.*?)close, s, re.DOTALL)] for two literal delimiters:
    the leftmost opening delimiter that a closing one follows, the nearest
    such closing delimiter, the group between them; the scan resumes after
    the closing delimiter. *)
Fixpoint findall_fuel (fuel : nat) (opening closing s : str) : list str :=
  match fuel with
  | 0 => []
  | S fuel' =>
      match find_sub opening s with
      | None => []
      | Some (_, s1) =>
          match find_sub closing s1 with
          | None => []
          | Some (group, s2) =>
              group :: findall_fuel fuel' opening closing s2
          end
      end
  end.

Definition findall (opening closing s : str) : list str :=
  findall_fuel (S (length s)) opening closing s.

(** [f"{i}"] for a non-negative integer. *)
Definition str_of_nat (i : nat) : str :=
  py (NilEmpty.string_of_uint (Nat.to_uint i)).

(** Number of positions at which [p] occurs in [s]. *)
Fixpoint count_sub (p s : str) : nat :=
  (if startswith p s then 1 else 0) +
  match s with
  | _ :: s' => count_sub p s'
  | [] => 0
  end.

End PyStr.
Import PyStr.
Arguments replace : simpl never.

(** ** Data model ([models/schemas.py], [config/settings.py]) *)

Module settings.
Definition max_tokens_default : N := 2048%N.
Definition max_tokens_thinking : N := 2048%N.
Definition max_tokens_rag : N := 2048%N.
End settings.

Module Message.
Record t : Type := mk { role : str; content : str }.
End Message.

Module ReferenceMaterial.
Record t : Type := mk {
  number : option str;
  source : str;
  content : str;
  is_authentic_source : bool }.
End ReferenceMaterial.

Module QueryRequest.
Record t : Type := mk {
  query : str;
  language : option str;
  include_references : bool }.
End QueryRequest.

Module RewrittenQuery.
Record t : Type := mk {
  original_query : str;
  rewritten_query : str;
  improvements : list str }.
End RewrittenQuery.

(** Floats that are only stored ([confidence_score], [confidence], the
    readings of the clock) are rationals, as every finite binary64 value
    is one.  The one float the code computes is [processing_time], the
    difference of two clock readings. *)

(** ** Floats: the difference of two readings *)

Module Float.

(** The result of an operation on two finite values; no NaN arises from
    the difference of two finite values. *)
Inductive t : Type :=
| Finite (q : Q)
| Infinity (negative : bool).

(** Digits of the significand, exponent of the smallest positive value,
    and the exponent no finite value reaches. *)
Definition prec : Z := 53.
Definition emin : Z := -1074.
Definition emax : Z := 1024.

(** [(num / den) / 2 ^ z] as a fraction of two positive integers. *)
Definition scaled (num den : positive) (z : Z) : Z * Z :=
  if (0 <=? z)%Z then (Zpos num, Zpos den * 2 ^ z)%Z
  else (Zpos num * 2 ^ (- z), Zpos den)%Z.

(** The exponent [e] with [2 ^ e <= num / den < 2 ^ (e + 1)]. *)
Definition ilog2 (num den : positive) : Z :=
  let k := (Z.log2 (Zpos num) - Z.log2 (Zpos den))%Z in
  let (n, d) := scaled num den k in
  if (d <=? n)%Z then k else (k - 1)%Z.

(** The integer nearest to [n / d], the even one of two that are equally
    near. *)
Definition nearest_even (n d : Z) : Z :=
  let fl := (n / d)%Z in
  match (2 * (n mod d) ?= d)%Z with
  | Lt => fl
  | Gt => (fl + 1)%Z
  | Eq => if Z.even fl then fl else (fl + 1)%Z
  end.

(** Rounding of [num / den] to [prec] digits: the significand and the
    exponent of its last digit, which does not go below [emin] (gradual
    underflow). *)
Definition round_pos (num den : positive) : Z * Z :=
  let e := ilog2 num den in
  let qe := Z.max (e - (prec - 1)) emin in
  let (n, d) := scaled num den qe in
  (nearest_even n d, qe).

Definition value (m qe : Z) : Q := Qred (inject_Z m * 2 ^ qe).

Definition overflows (m qe : Z) : bool :=
  (0 <=? qe)%Z && (2 ^ emax <=? m * 2 ^ qe)%Z.

(** Round to nearest, ties to even; a result of magnitude [2 ^ emax] or
    more is an infinity. *)
Definition round (q : Q) : t :=
  match Qnum q with
  | Z0 => Finite 0
  | Zpos num =>
      let (m, qe) := round_pos num (Qden q) in
      if overflows m qe then Infinity false else Finite (value m qe)
  | Zneg num =>
      let (m, qe) := round_pos num (Qden q) in
      if overflows m qe then Infinity true else Finite (- value m qe)
  end.

(** [a - b] on two finite binary64 values. *)
Definition sub (a b : Q) : t := round (a - b).

(** [x > 0] *)
Definition positive (x : t) : Prop :=
  match x with
  | Finite q => (0 < q)%Q
  | Infinity negative => negative = false
  end.

(** The rationals that are finite binary64 values: those that rounding
    leaves as they are. *)
Definition is_binary64 (q : Q) : bool :=
  match round q with
  | Finite r => Qeq_bool r q
  | Infinity _ => false
  end.

End Float.

Module RAGResult.
Record t : Type := mk {
  content : str;
  references : list ReferenceMaterial.t;
  sources_used : list str;
  confidence_score : Q }.
End RAGResult.

(** [results] is a list of [Dict[str, Any]]: the search hits as returned by
    the search client, read with [.get(key, default)]. *)
Module WebSearchResult.
Record t : Type := mk {
  content : str;
  results : list (gmap (list N) (list N));
  search_query : str }.
End WebSearchResult.

Module FinalAnswer.
Record t : Type := mk {
  answer : str;
  confidence : Q;
  methodology : str;
  references : gmap (list N) (list (list N)) }.
End FinalAnswer.

(** [intermediate_reasoning] is [None] on every path and is left out. *)
Module SystemResponse.
Record t : Type := mk {
  final_answer : FinalAnswer.t;
  raw_rag_output : option RAGResult.t;
  raw_web_output : option WebSearchResult.t;
  rewritten_query : option RewrittenQuery.t;
  processing_time : Float.t }.
End SystemResponse.

(** ** Effects: world state and exceptions *)

Inductive outcome (A : Type) : Type :=
| Ok (a : A)
| Raise (e : list N).
Arguments Ok {A} a.
Arguments Raise {A} e.

(** A computation reads and changes the world and returns or raises; [e] is
    [str(e)] of the Python exception. *)
Definition M (W A : Type) : Type := W -> outcome A * W.

Definition ret {W A} (a : A) : M W A := fun w => (Ok a, w).

Definition raise {W A} (e : str) : M W A := fun w => (Raise e, w).

Definition bind {W A B} (m : M W A) (k : A -> M W B) : M W B :=
  fun w =>
    match m w with
    | (Ok a, w') => k a w'
    | (Raise e, w') => (Raise e, w')
    end.

(** [try: m except Exception as e: h e] *)
Definition try_except {W A} (m : M W A) (h : str -> M W A) : M W A :=
  fun w =>
    match m w with
    | (Ok a, w') => (Ok a, w')
    | (Raise e, w') => h e w'
    end.

Notation "'do' x <- m 'in' k" := (bind m (fun x => k))
  (at level 10, x name, m at level 100, k at level 200).

(** What the search client returns: a dictionary with optional [answer] and
    [results] entries. *)
Module TavilyResponse.
Record t : Type := mk {
  answer : option str;
  results : option (list (gmap (list N) (list N))) }.
End TavilyResponse.

(** The collaborators outside the repository.  [chat_completions_create] is
    [client.chat.completions.create(...).choices[0].message.content] (the
    content may be [None]); [requests_post_chat] and [requests_post_rag] are
    [requests.post(...)], [raise_for_status()] and the fields read from the
    decoded JSON; [tavily_client] is [None] without an API key.  The three
    prompt templates are given as their [.format] functions, [lower] is
    [str.lower], [list_set] is [list(set(...))], whose order Python does not
    fix, and [validation_error] is the text of a pydantic [ValidationError]. *)
Record Env (W : Type) : Type := {
  chat_completions_create : list Message.t -> N -> M W (option str);
  requests_post_chat : list Message.t -> N -> M W (option str * str);
  requests_post_rag : str -> N -> M W (option str * list (gmap (list N) (list N)));
  tavily_client : option (str -> N -> M W TavilyResponse.t);
  time_time : W -> Q * W;
  QUERY_REWRITER_PROMPT : str -> str;
  TOOL_USAGE_PROMPT : str -> str;
  FINAL_SYNTHESIS_PROMPT : str -> str -> str;
  lower : str -> str;
  list_set : list str -> list str;
  validation_error : str }.
Arguments chat_completions_create {W}.
Arguments requests_post_chat {W}.
Arguments requests_post_rag {W}.
Arguments tavily_client {W}.
Arguments time_time {W}.
Arguments QUERY_REWRITER_PROMPT {W}.
Arguments TOOL_USAGE_PROMPT {W}.
Arguments FINAL_SYNTHESIS_PROMPT {W}.
Arguments lower {W}.
Arguments list_set {W}.
Arguments validation_error {W}.

(** [x or default] on an optional integer. *)
Definition or_default (x : option N) (d : N) : N :=
  match x with
  | Some n => if (n =? 0)%N then d else n
  | None => d
  end.

(** ** [services/fanar_service.py] *)

Module FanarService.
Section WithEnv.
Context {W : Type} (E : Env W).

Definition simple_chat (messages : list Message.t) (max_tokens : option N)
  : M W (option str) :=
  try_except
    (chat_completions_create E messages
       (or_default max_tokens settings.max_tokens_default))
    (fun e => raise e).

(** The loop over [reversed(messages)]: the last message whose role is
    [thinking_user] gets the role [user]. *)
Fixpoint retag_first (msgs : list Message.t) : list Message.t :=
  match msgs with
  | m :: ms =>
      if decide (Message.role m = py "thinking_user")
      then Message.mk (py "user") (Message.content m) :: ms
      else m :: retag_first ms
  | [] => []
  end.

Definition retag_last (msgs : list Message.t) : list Message.t :=
  rev (retag_first (rev msgs)).

Definition thinking_chat (user_input : str) (max_tokens : option N)
  : M W (option str) :=
  try_except
    (let messages := [Message.mk (py "thinking_user") user_input] in
     do response <- requests_post_chat E messages
                   (or_default max_tokens settings.max_tokens_thinking) in
     match fst response with
     | None => raise (py "argument of type 'NoneType' is not iterable")
     | Some output =>
         let finish_reason := snd response in
         let has_think_tag := contains (py "</think>") output in
         let hit_length_limit := bool_decide (finish_reason = py "length") in
         if has_think_tag || hit_length_limit then
           let thinking_output :=
             if has_think_tag
             then match find_sub (py "</think>") output with
                  | Some (before, _) => before
                  | None => output
                  end
             else output in
           let messages := retag_last messages in
           let messages :=
             messages ++ [Message.mk (py "thinking") thinking_output] in
           (do final_response <- requests_post_chat E messages
                                settings.max_tokens_default in
            ret (fst final_response))
         else ret (Some output)
     end)
    (fun e => raise e).

Definition authentic_sources : list str :=
  [py "islamqa"; py "islamweb"; py "sunnah"; py "quran"; py "tafsir";
   py "dorar"; py "shamela"; py "islamonline"; py "dar-alifta";
   py "al-islam"; py "islamicity"; py "muslim"].

Definition _validate_islamic_source (source : str) : bool :=
  existsb (fun auth_source => contains auth_source (lower E source))
    authentic_sources.

Definition _parse_enhanced_references
  (references : list (gmap (list N) (list N))) : list ReferenceMaterial.t :=
  List.map
    (fun ref =>
       let source := default (py "Unknown source") (ref !! py "source") in
       let content := default [] (ref !! py "content") in
       ReferenceMaterial.mk
         (Some (default (py "None") (ref !! py "number")))
         source content (_validate_islamic_source source))
    references.

Definition islamic_rag (query : str) : M W RAGResult.t :=
  try_except
    (do response_data <- requests_post_rag E query settings.max_tokens_rag in
     let references := _parse_enhanced_references (snd response_data) in
     let sources_used :=
       list_set E (List.map ReferenceMaterial.source references) in
     match fst response_data with
     | Some content =>
         ret (RAGResult.mk content references sources_used 0%Q)
     | None => raise (validation_error E)
     end)
    (fun e => raise e).

End WithEnv.
End FanarService.

(** ** [services/tavily_service.py] *)

Module TavilyService.
Section WithEnv.
Context {W : Type} (E : Env W).

Definition is_available : bool :=
  match tavily_client E with Some _ => true | None => false end.

Definition search (query : str) (max_results : N) : M W WebSearchResult.t :=
  match tavily_client E with
  | None => raise (py "Tavily API key not configured")
  | Some client =>
      try_except
        (do search_result <- client query max_results in
         let content := default [] (TavilyResponse.answer search_result) in
         let hits := default [] (TavilyResponse.results search_result) in
         let content :=
           match content, hits with
           | [], _ :: _ =>
               join [newline]
                 (List.map (fun result => default [] (result !! py "content"))
                    (take 3 hits))
           | _, _ => content
           end in
         ret (WebSearchResult.mk content hits query))
        (fun e => raise e)
  end.

End WithEnv.
End TavilyService.

(** ** [agents/query_rewriter.py] *)

Module QueryRewriterAgent.

(** The values of [current_section]; [None] before any header is seen. *)
Inductive section_name : Type := sec_query | sec_improvements.

#[global] Instance section_name_eq_dec : EqDecision section_name.
Proof. solve_decision. Defined.

Record parse_state : Type := mk_state {
  st_rewritten_query : str;
  st_improvements : list str;
  st_current_section : option section_name }.

(** The bullet literal of the source, three code points. *)
Definition bullet : str := [226%N; 8364%N; 162%N].

Definition nonempty (s : str) : bool :=
  match s with [] => false | _ :: _ => true end.

(** One turn of the loop over the lines of the response.  The only
    operation that can raise is the index [[1]] after [split(":", 1)]. *)
Definition parse_line (st : parse_state) (raw : str) : outcome parse_state :=
  let line := strip raw in
  if negb (nonempty line) then Ok st
  else if startswith (py "1. Rewritten Query:") line
          || contains (py "Rewritten Query:") line then
    let st := mk_state (st_rewritten_query st) (st_improvements st)
                (Some sec_query) in
    if contains (py ":") line then
      match split1 (py ":") line !! 1%nat with
      | Some part =>
          let query_part := strip part in
          if nonempty query_part && negb (startswith (py "[") query_part)
          then Ok (mk_state query_part (st_improvements st)
                     (st_current_section st))
          else Ok st
      | None => Raise (py "list index out of range")
      end
    else Ok st
  else if startswith (py "2. Improvements Made:") line
          || contains (py "Improvements Made:") line then
    Ok (mk_state (st_rewritten_query st) (st_improvements st)
          (Some sec_improvements))
  else if bool_decide (st_current_section st = Some sec_query)
          && nonempty line then
    if negb (startswith (py "[") line) && negb (startswith (py "2.") line)
    then Ok (mk_state line (st_improvements st) (st_current_section st))
    else Ok st
  else if bool_decide (st_current_section st = Some sec_improvements)
          && nonempty line then
    if startswith (py "-") line || startswith bullet line
       || startswith (py "*") line
    then Ok (mk_state (st_rewritten_query st)
               (st_improvements st ++ [strip (drop 1 line)])
               (st_current_section st))
    else if negb (startswith (py "[") line)
    then Ok (mk_state (st_rewritten_query st) (st_improvements st ++ [line])
               (st_current_section st))
    else Ok st
  else Ok st.

Fixpoint parse_lines (st : parse_state) (lines : list str)
  : outcome parse_state :=
  match lines with
  | [] => Ok st
  | line :: rest =>
      match parse_line st line with
      | Ok st' => parse_lines st' rest
      | Raise e => Raise e
      end
  end.

(** The body of the [try] in [_parse_response]; a response that is [None]
    has no [strip]. *)
Definition parse_body (response : option str) (original_query : str)
  : outcome (str * list str) :=
  match response with
  | None => Raise (py "'NoneType' object has no attribute 'strip'")
  | Some response =>
      let lines := split_char newline (strip response) in
      match parse_lines (mk_state original_query [] None) lines with
      | Raise e => Raise e
      | Ok st =>
          let rewritten_query := strip (st_rewritten_query st) in
          let rewritten_query :=
            if startswith (py "[") rewritten_query
               && endswith (py "]") rewritten_query
            then original_query else rewritten_query in
          let improvements :=
            match st_improvements st with
            | [] => [py "Query processed for Islamic context"]
            | _ :: _ => st_improvements st
            end in
          Ok (rewritten_query, improvements)
      end
  end.

Definition _parse_response (response : option str) (original_query : str)
  : str * list str :=
  match parse_body response original_query with
  | Ok r => r
  | Raise _ =>
      (original_query, [py "Error in parsing (using original query)"])
  end.

Section WithEnv.
Context {W : Type} (E : Env W).

Definition islamic_terms : list str :=
  [py "islam"; py "islamic"; py "quran"; py "hadith"; py "prophet";
   py "allah"; py "muhammad"].

Definition _simple_enhance_query (query : str) : str :=
  let query_lower := lower E query in
  let has_islamic_context :=
    existsb (fun term => contains term query_lower) islamic_terms in
  if negb has_islamic_context
  then query ++ py " in Islamic perspective according to Quran and Sunnah"
  else query.

Definition rewrite_query (original_query : str) : M W RewrittenQuery.t :=
  try_except
    (let prompt := QUERY_REWRITER_PROMPT E original_query in
     let messages := [Message.mk (py "user") prompt] in
     do response <- FanarService.simple_chat E messages None in
     let parsed := _parse_response response original_query in
     ret (RewrittenQuery.mk original_query (fst parsed) (snd parsed)))
    (fun e =>
       ret (RewrittenQuery.mk original_query
              (_simple_enhance_query original_query)
              [py "Added basic Islamic context (fallback)"])).

End WithEnv.
End QueryRewriterAgent.

(** ** [agents/tool_usage_agent.py] *)

Module ToolUsageAgent.

Record invocation : Type := mk_invocation {
  inv_tool : str;
  inv_query : str }.

Inductive tool_output : Type :=
| RAG_output (result : RAGResult.t)
| Web_output (result : WebSearchResult.t).

(** An entry of [tool_results]: the dictionary with keys [tool], [query]
    and [result]. *)
Record tool_result : Type := mk_tool_result {
  tr_tool : str;
  tr_query : str;
  tr_result : tool_output }.

(** The dictionary returned by [process_query]; [error] and [query] are
    present only in the error result. *)
Record agent_result : Type := mk_agent_result {
  success : bool;
  error : option str;
  ar_query : option str;
  tool_invocations : list invocation;
  tool_results : list tool_result;
  rag_result : option RAGResult.t;
  web_result : option WebSearchResult.t;
  thinking_mode : bool }.

Definition rag_open : str := py "<RAG><query>".
Definition rag_close : str := py "</query></RAG>".
Definition search_open : str := py "<InternetSearch><search_query>".
Definition search_close : str := py "</search_query></InternetSearch>".

(** A response that is [None] makes [re.findall] raise inside the [try],
    and the handler returns the empty list. *)
Definition _parse_tool_invocations (response : option str)
  : list invocation :=
  match response with
  | None => []
  | Some response =>
      let rag_matches := findall rag_open rag_close response in
      let search_matches := findall search_open search_close response in
      List.map (fun m => mk_invocation (py "RAG") (strip m)) rag_matches
      ++ List.map (fun m => mk_invocation (py "InternetSearch") (strip m))
           search_matches
  end.

Section WithEnv.
Context {W : Type} (E : Env W).
(** [self.use_thinking_mode] *)
Variable self_use_thinking_mode : bool.

Definition _get_tool_invocations (query : str) (thinking_mode : bool)
  : M W (list invocation) :=
  try_except
    (let prompt := TOOL_USAGE_PROMPT E query in
     do response <-
       (if thinking_mode
        then FanarService.thinking_chat E prompt None
        else FanarService.simple_chat E [Message.mk (py "user") prompt] None)
     in
     ret (_parse_tool_invocations response))
    (fun e => ret []).

Definition _execute_rag (query : str) : M W (option RAGResult.t) :=
  try_except
    (do result <- FanarService.islamic_rag E query in ret (Some result))
    (fun e => ret None).

Definition _execute_web_search (query : str)
  : M W (option WebSearchResult.t) :=
  try_except
    (if negb (TavilyService.is_available E) then ret None
     else do result <- TavilyService.search E query 3%N in ret (Some result))
    (fun e => ret None).

Definition _create_error_result (error : str) (query : str) : agent_result :=
  mk_agent_result false (Some error) (Some query) [] [] None None
    self_use_thinking_mode.

(** The loop over the invocations: [rag_result] and [web_result] are
    overwritten by every invocation of their kind, a record is appended only
    for a result that is not [None]. *)
Fixpoint run_invocations (invocations : list invocation)
  (rag : option RAGResult.t) (web : option WebSearchResult.t)
  (results : list tool_result)
  : M W (option RAGResult.t * option WebSearchResult.t * list tool_result) :=
  match invocations with
  | [] => ret (rag, web, results)
  | inv :: rest =>
      if decide (inv_tool inv = py "RAG") then
        do rag_result <- _execute_rag (inv_query inv) in
        run_invocations rest rag_result web
          (match rag_result with
           | Some r =>
               results ++
               [mk_tool_result (py "RAG") (inv_query inv) (RAG_output r)]
           | None => results
           end)
      else if decide (inv_tool inv = py "InternetSearch") then
        do web_result <- _execute_web_search (inv_query inv) in
        run_invocations rest rag web_result
          (match web_result with
           | Some r =>
               results ++
               [mk_tool_result (py "InternetSearch") (inv_query inv)
                  (Web_output r)]
           | None => results
           end)
      else run_invocations rest rag web results
  end.

Definition process_query (query : str) (use_thinking_mode : option bool)
  : M W agent_result :=
  let thinking_mode := default self_use_thinking_mode use_thinking_mode in
  try_except
    (do tool_invocations <- _get_tool_invocations query thinking_mode in
     match tool_invocations with
     | [] =>
         ret (_create_error_result (py "No tool invocations generated") query)
     | _ :: _ =>
         do r <- run_invocations tool_invocations None None [] in
         ret (mk_agent_result true None None tool_invocations (snd r)
                (fst (fst r)) (snd (fst r)) thinking_mode)
     end)
    (fun e => ret (_create_error_result e query)).

End WithEnv.
End ToolUsageAgent.

(** ** [agents/synthesis_agent.py] *)

Module SynthesisAgent.
Import ToolUsageAgent.

Definition RAG : str := py "RAG".
Definition InternetSearch : str := py "InternetSearch".

(** [f"<RAG id={i}>{ref.source}: {ref.content[:100]}...</RAG>"] *)
Definition rag_line (i : nat) (ref : ReferenceMaterial.t) : str :=
  py "<RAG id=" ++ str_of_nat i ++ py ">" ++ ReferenceMaterial.source ref
  ++ py ": " ++ take 100 (ReferenceMaterial.content ref) ++ py "...</RAG>".

(** [f"<Internet id={i}>{title} ({url}): {snippet}...</Internet>"] *)
Definition internet_line (i : nat) (web_result : gmap (list N) (list N))
  : str :=
  let title := default (py "Unknown") (web_result !! py "title") in
  let url := default [] (web_result !! py "url") in
  let snippet := take 100 (default [] (web_result !! py "content")) in
  py "<Internet id=" ++ str_of_nat i ++ py ">" ++ title ++ py " (" ++ url
  ++ py "): " ++ snippet ++ py "...</Internet>".

Definition rag_header (query_used content : str) : str :=
  [newline] ++ py "## Islamic Sources Information" ++ [newline]
  ++ py "**Query Used:** " ++ query_used ++ [newline]
  ++ py "**Content:** " ++ content ++ [newline].

Definition internet_header (query_used content : str) : str :=
  [newline] ++ py "## Contemporary (Internet Search) Information"
  ++ [newline] ++ py "**Search Query:** " ++ query_used ++ [newline]
  ++ py "**Direct Search Answer:** " ++ content ++ [newline].

(** The accumulators of the loop: [synthesis_parts], [sources["RAG"]] and
    [sources["InternetSearch"]]. *)
Record prepare_state : Type := mk_prepare {
  synthesis_parts : list str;
  sources_RAG : list str;
  sources_InternetSearch : list str }.

(** One turn of the loop over [tool_results].  Both inner loops are
    [enumerate(..., 1)]: the index starts at 1 in every record. *)
Definition prepare_step (acc : prepare_state) (result_data : tool_result)
  : prepare_state :=
  let tool := tr_tool result_data in
  let query_used := tr_query result_data in
  match tr_result result_data with
  | RAG_output result =>
      if decide (tool = RAG) then
        let parts :=
          synthesis_parts acc
          ++ [rag_header query_used (RAGResult.content result)] in
        let rag := sources_RAG acc ++ RAGResult.sources_used result in
        let parts :=
          match RAGResult.references result with
          | [] => parts
          | _ :: _ =>
              parts ++ [py "**Detailed References and Sources:**"]
              ++ imap (fun i ref => rag_line (S i) ref)
                   (RAGResult.references result)
              ++ [[]]
          end in
        mk_prepare parts rag (sources_InternetSearch acc)
      else acc
  | Web_output result =>
      if decide (tool = InternetSearch) then
        let parts :=
          synthesis_parts acc
          ++ [internet_header query_used (WebSearchResult.content result)] in
        match WebSearchResult.results result with
        | [] => mk_prepare parts (sources_RAG acc) (sources_InternetSearch acc)
        | _ :: _ =>
            mk_prepare
              (parts ++ [py "**Web Search Results:**"]
               ++ imap (fun i web_result => internet_line (S i) web_result)
                    (WebSearchResult.results result)
               ++ [[]])
              (sources_RAG acc)
              (sources_InternetSearch acc
               ++ List.map (fun web_result =>
                              default [] (web_result !! py "url"))
                    (WebSearchResult.results result))
        end
      else acc
  end.

Definition _prepare_synthesis_input_from_tool_results
  (query : str) (tool_results : list tool_result)
  : str * gmap (list N) (list (list N)) :=
  let acc := fold_left prepare_step tool_results (mk_prepare [] [] []) in
  (join [newline] (synthesis_parts acc),
   {[ RAG := sources_RAG acc;
      InternetSearch := sources_InternetSearch acc ]}).

Definition _create_fallback_answer (query : str) (error : str)
  : FinalAnswer.t :=
  FinalAnswer.mk
    (py "I apologize, but I encountered an error while processing your query: "
     ++ error)
    0%Q (py "Error fallback")
    {[ RAG := []; InternetSearch := [] ]}.

Section WithEnv.
Context {W : Type} (E : Env W).
(** [self.use_thinking_mode] *)
Variable self_use_thinking_mode : bool.

(** [FinalAnswer(answer=response, ...)] is validated: an answer that is
    [None] raises inside the [try]. *)
Definition synthesize_answer (original_query : str)
  (tool_results : list tool_result) (use_thinking_mode : option bool)
  : M W FinalAnswer.t :=
  let thinking_mode := default self_use_thinking_mode use_thinking_mode in
  try_except
    (let prepared :=
       _prepare_synthesis_input_from_tool_results original_query
         tool_results in
     let prompt := FINAL_SYNTHESIS_PROMPT E original_query (fst prepared) in
     do response <-
       (if thinking_mode
        then FanarService.thinking_chat E prompt (Some 2000%N)
        else FanarService.simple_chat E [Message.mk (py "user") prompt] None)
     in
     match response with
     | Some answer => ret (FinalAnswer.mk answer 0%Q [] (snd prepared))
     | None => raise (validation_error E)
     end)
    (fun e => ret (_create_fallback_answer original_query e)).

End WithEnv.
End SynthesisAgent.

(** ** [orchestrator.py] *)

Module Orchestrator.
Import ToolUsageAgent SynthesisAgent.

(** The thinking-mode flags held by the two agents of the orchestrator. *)
Record t : Type := mk {
  tool_usage_agent_mode : bool;
  synthesis_agent_mode : bool }.

Definition open_RAG (i : nat) : str := py "<RAG id=" ++ str_of_nat i ++ py ">".
Definition close_RAG : str := py "</RAG>".
Definition open_Internet (i : nat) : str :=
  py "<Internet id=" ++ str_of_nat i ++ py ">".
Definition close_Internet : str := py "</Internet>".

(** [for i, ref in enumerate(refs, i): ...] with the two [replace] calls of
    the loop body. *)
Fixpoint replace_loop (open_tag : nat -> str) (close_tag : str) (i : nat)
  (refs : list str) (text : str) : str :=
  match refs with
  | [] => text
  | ref :: refs' =>
      let pattern := open_tag i in
      let replacement := py "[" ++ ref ++ py "]" in
      let text := replace pattern replacement text in
      let text := replace close_tag [] text in
      replace_loop open_tag close_tag (S i) refs' text
  end.

Definition _replace_reference_tags (text : str)
  (references : gmap (list N) (list (list N))) : str :=
  let text :=
    replace_loop open_RAG close_RAG 1 (default [] (references !! RAG)) text in
  let text :=
    replace_loop open_Internet close_Internet 1
      (default [] (references !! InternetSearch)) text in
  text.

Section WithEnv.
Context {W : Type} (E : Env W) (self : t).

Definition now : M W Q :=
  fun w => let (t, w') := time_time E w in (Ok t, w').

Definition process_query (request : QueryRequest.t)
  (use_thinking_mode : option bool) : M W SystemResponse.t :=
  do start_time <- now in
  try_except
    (do rewritten_query_result <-
       QueryRewriterAgent.rewrite_query E (QueryRequest.query request) in
     do agent_result <-
       ToolUsageAgent.process_query E (tool_usage_agent_mode self)
         (RewrittenQuery.rewritten_query rewritten_query_result)
         use_thinking_mode in
     do final_answer <-
       (if success agent_result
        then SynthesisAgent.synthesize_answer E (synthesis_agent_mode self)
               (QueryRequest.query request) (tool_results agent_result)
               use_thinking_mode
        else ret (_create_fallback_answer (QueryRequest.query request)
                    (default (py "Unknown error") (error agent_result))))
     in
     do end_time <- now in
     let processing_time := Float.sub end_time start_time in
     let final_answer :=
       FinalAnswer.mk
         (_replace_reference_tags (FinalAnswer.answer final_answer)
            (FinalAnswer.references final_answer))
         (FinalAnswer.confidence final_answer)
         (FinalAnswer.methodology final_answer)
         (FinalAnswer.references final_answer) in
     ret (SystemResponse.mk final_answer (rag_result agent_result)
            (web_result agent_result) (Some rewritten_query_result)
            processing_time))
    (fun e =>
       do end_time <- now in
       let processing_time := Float.sub end_time start_time in
       ret (SystemResponse.mk
              (_create_fallback_answer (QueryRequest.query request) e)
              None None None processing_time)).

End WithEnv.
End Orchestrator.

(** ** [orchestrator.py]: [health_check] *)

Module HealthCheck.

(** The dictionary returned by [health_check]; [services] has the two
    entries [fanar] and [tavily], in this order. *)
Record t : Type := mk {
  status : str;
  fanar : str;
  tavily : str;
  timestamp : Q }.

(** Truth value of an optional string: [None] and the empty string are
    false. *)
Definition truthy (r : option str) : bool :=
  match r with
  | Some (_ :: _) => true
  | Some [] | None => false
  end.

Section WithEnv.
Context {W : Type} (E : Env W).

Definition health_check : M W t :=
  do timestamp <- Orchestrator.now E in
  do fanar <-
    try_except
      (do test_response <-
         FanarService.simple_chat E
           [Message.mk (py "user") (py "Test message")] None in
       ret (if truthy test_response then py "healthy" else py "unhealthy"))
      (fun e => ret (py "unhealthy")) in
  do tavily <-
    try_except
      (ret (if TavilyService.is_available E
            then py "healthy" else py "unavailable"))
      (fun e => ret (py "unhealthy")) in
  let status :=
    if existsb (fun s => bool_decide (s = py "unhealthy")) [fanar; tavily]
    then py "degraded"
    else if negb (bool_decide (fanar = py "healthy")) then py "unhealthy"
    else py "healthy" in
  ret (mk status fanar tavily timestamp).

End WithEnv.
End HealthCheck.

(** ** Vocabulary of the statements *)

Module Spec.
Import ToolUsageAgent SynthesisAgent Orchestrator QueryRewriterAgent.

(** *** Texts made of plain characters and tags *)

Definition free_of (c : char) (s : str) : bool :=
  forallb (fun x => negb (x =? c)%N) s.

(** Every [<] of the text opens a tag that a [>] closes before the next
    [<]: no tag fragment sits inside another one. *)
Fixpoint well_tagged_from (inside : bool) (s : str) : bool :=
  match s with
  | [] => negb inside
  | c :: s' =>
      if inside then
        if (c =? lt_sign)%N then false
        else if (c =? gt_sign)%N then well_tagged_from false s'
        else well_tagged_from true s'
      else
        if (c =? lt_sign)%N then well_tagged_from true s'
        else well_tagged_from false s'
  end.

Definition well_tagged (s : str) : bool := well_tagged_from false s.

(** [<body>] with no angle bracket in [body]. *)
Definition tag_shaped (p : str) : Prop :=
  exists body, p = lt_sign :: body ++ [gt_sign] /\
    Forall (fun c => c <> lt_sign /\ c <> gt_sign) body.

Inductive piece_ok : str -> Prop :=
| piece_plain c : c <> lt_sign -> piece_ok [c]
| piece_tag p : tag_shaped p -> piece_ok p.

Definition explode (s : str) : list str := List.map (fun c => [c]) s.

Definition subst_piece (old new p : str) : list str :=
  if decide (p = old) then explode new else [p].

Definition subst_pieces (old new : str) (ps : list str) : list str :=
  flat_map (subst_piece old new) ps.

(** [replace_loop] read on the pieces of a text. *)
Fixpoint loop_pieces (open_tag : nat -> str) (close_tag : str) (i : nat)
  (refs : list str) (ps : list str) : list str :=
  match refs with
  | [] => ps
  | ref :: refs' =>
      loop_pieces open_tag close_tag (S i) refs'
        (subst_pieces close_tag []
           (subst_pieces (open_tag i) (py "[" ++ ref ++ py "]") ps))
  end.

(** A piece that no turn of the loop touches. *)
Definition inert (open_tag : nat -> str) (close_tag : str) (i : nat)
  (refs : list str) (q : str) : Prop :=
  (forall j, i <= j < i + length refs -> q <> open_tag j) /\
  (refs <> [] -> q <> close_tag).

Definition final_pieces (references : gmap (list N) (list (list N)))
  (ps : list str) : list str :=
  loop_pieces open_Internet close_Internet 1
    (default [] (references !! InternetSearch))
    (loop_pieces open_RAG close_RAG 1 (default [] (references !! RAG)) ps).

(** No origin of the reference map contains [<]. *)
Definition origins_plain (references : gmap (list N) (list (list N))) : bool :=
  forallb (free_of lt_sign) (default [] (references !! RAG))
  && forallb (free_of lt_sign) (default [] (references !! InternetSearch)).

Definition is_digit (c : char) : Prop := (48 <= c <= 57)%N.

(** *** Extraction *)

Definition head_ok (t : str) : Prop :=
  match t with [] => True | c :: _ => isspace c = false end.

(** [t] is [g] without its leading and trailing whitespace. *)
Definition trimmed (g t : str) : Prop :=
  exists l r, g = l ++ t ++ r
    /\ Forall (fun c => isspace c = true) l
    /\ Forall (fun c => isspace c = true) r
    /\ head_ok t /\ head_ok (rev t).

(** The groups of the successive leftmost, shortest, non-overlapping matches
    of [opening(.*?)closing] in a text, in their order of appearance. *)
Inductive groups (opening closing : str) : str -> list str -> Prop :=
| groups_none s :
    (forall pre body post, s <> pre ++ opening ++ body ++ closing ++ post) ->
    groups opening closing s []
| groups_match pre body post gs :
    (forall pre' body' post',
        pre ++ opening ++ body ++ closing ++ post
        = pre' ++ opening ++ body' ++ closing ++ post' ->
        length pre <= length pre') ->
    (forall body' post',
        body ++ closing ++ post = body' ++ closing ++ post' ->
        length body <= length body') ->
    groups opening closing post gs ->
    groups opening closing (pre ++ opening ++ body ++ closing ++ post)
      (body :: gs).

(** The lines of a prompt that carry a numbered tag of one kind. *)
Definition tag_lines (prefix prompt : str) : list str :=
  List.filter (startswith prefix) (split_char newline prompt).

(** *** Rewriter *)

(** A bracketed placeholder: opens with [[] and ends with []]. *)
Definition is_bracketed (s : str) : bool :=
  startswith (py "[") s && endswith (py "]") s.

(** A rewritten query taken from the response: non-empty, already stripped,
    not opening with a bracket. *)
Definition clean (r : str) : Prop :=
  r <> [] /\ strip r = r /\ startswith (py "[") r = false.

(** *** Coordinator *)

(** A computation that returns, in every state, instead of raising. *)
Definition returns {W A} (m : M W A) : Prop :=
  forall w, exists a w', m w = (Ok a, w').

(** The chat backend raises on every call, in every state. *)
Definition chat_down {W} (E : Env W) : Prop :=
  (forall messages max_tokens w,
      exists e w',
        chat_completions_create E messages max_tokens w = (Raise e, w'))
  /\ (forall messages max_tokens w,
         exists e w',
           requests_post_chat E messages max_tokens w = (Raise e, w')).

(** The chat call made by the planner. *)
Definition planner_call {W} (E : Env W) (query : str) (thinking_mode : bool)
  : M W (option str) :=
  if thinking_mode
  then FanarService.thinking_chat E (TOOL_USAGE_PROMPT E query) None
  else FanarService.simple_chat E
         [Message.mk (py "user") (TOOL_USAGE_PROMPT E query)] None.

Definition apology (error : str) : str :=
  py "I apologize, but I encountered an error while processing your query: "
  ++ error.

Definition no_references : gmap (list N) (list (list N)) :=
  {[ RAG := []; InternetSearch := [] ]}.

(** *** Clock readings *)

(** [2 ^ z <= num / den], read on the fraction of [Float.scaled]. *)
Definition ge_pow2 (num den : positive) (z : Z) : Prop :=
  (snd (Float.scaled num den z) <= fst (Float.scaled num den z))%Z.

(** The multiples of the smallest positive binary64 value. *)
Definition on_grid (q : Q) : Prop :=
  exists k : Z, (q * inject_Z (2 ^ (- Float.emin)) == inject_Z k)%Q.

End Spec.

(** ** Concrete runs *)

Module Scenario.
Import ToolUsageAgent SynthesisAgent.

Definition ascii_lower (s : str) : str :=
  List.map
    (fun c => if ((65 <=? c) && (c <=? 90))%N then (c + 32)%N else c) s.

(** A world that is a call counter: the chat backend always gives [reply],
    retrieval always gives [retrieved], web search has no key, the clock
    shows [tick] of the counter and advances it. *)
Definition scripted (reply : outcome (option (list N)))
  (retrieved : outcome (option (list N) * list (gmap (list N) (list N))))
  (tick : nat -> Q) : Env nat :=
  {| chat_completions_create := fun _ _ w => (reply, w);
     requests_post_chat := fun _ _ w =>
       (match reply with
        | Ok r => Ok (r, py "stop")
        | Raise e => Raise e
        end, w);
     requests_post_rag := fun _ _ w => (retrieved, w);
     tavily_client := None;
     time_time := fun w => (tick w, S w);
     QUERY_REWRITER_PROMPT := fun q => py "Original Query: " ++ q;
     TOOL_USAGE_PROMPT := fun q => py "Here is the query: " ++ q;
     FINAL_SYNTHESIS_PROMPT := fun q sources =>
       py "## User Query: " ++ q ++ py " ## Sources: " ++ sources;
     lower := ascii_lower;
     list_set := remove_dups;
     validation_error := py "1 validation error for FinalAnswer" |}.

Definition unreachable {A} : outcome A := Raise (py "Connection error.").

Definition env_down : Env nat :=
  scripted unreachable unreachable (fun w => inject_Z (Z.of_nat w)).

Definition env_frozen_clock : Env nat :=
  scripted unreachable unreachable (fun _ => 1730000000%Q).

Definition env_chatty (reply : string) : Env nat :=
  scripted (Ok (Some (py reply))) unreachable (fun w => inject_Z (Z.of_nat w)).
Arguments env_chatty reply%_string.

Definition request_fast : QueryRequest.t :=
  QueryRequest.mk (py "What breaks a fast?") (Some (py "en")) true.

Definition refs_two : gmap (list N) (list (list N)) :=
  {[ RAG := [py "islamqa"; py "sunnah"]; InternetSearch := [] ]}.

Definition refs_closing_origin : gmap (list N) (list (list N)) :=
  {[ RAG := [py "islamqa"; py "</RAG>"]; InternetSearch := [] ]}.

Definition refs_tag_origin : gmap (list N) (list (list N)) :=
  {[ RAG := [py "<RAG id=1>"]; InternetSearch := [] ]}.

Definition refs_web_tag_origin : gmap (list N) (list (list N)) :=
  {[ RAG := [py "islamqa"; py "sunnah"];
     InternetSearch := [py "<RAG id=2>"] ]}.

Definition refs_web_only : gmap (list N) (list (list N)) :=
  {[ RAG := []; InternetSearch := [py "https://a.example"] ]}.

Definition raw_reference (source content : str) : gmap (list N) (list N) :=
  {[ py "source" := source; py "content" := content; py "number" := py "1" ]}.

Definition fasting_query : str := py "conditions invalidating fasting".

(** A retrieval reply with two passages from the same source. *)
Definition same_source_reply
  : option (list N) * list (gmap (list N) (list N)) :=
  (Some (py "X"),
   [raw_reference (py "islamqa") (py "Eating breaks the fast");
    raw_reference (py "islamqa") (py "Drinking breaks the fast")]).

Definition env_same_source : Env nat :=
  scripted unreachable (Ok same_source_reply) (fun w => inject_Z (Z.of_nat w)).

Definition rag_record (query content source excerpt : str) : tool_result :=
  mk_tool_result RAG query
    (RAG_output
       (RAGResult.mk content
          [ReferenceMaterial.mk (Some (py "1")) source excerpt true]
          [source] 0%Q)).

Definition web_record (query content url : str) : tool_result :=
  mk_tool_result InternetSearch query
    (Web_output
       (WebSearchResult.mk content
          [{[ py "title" := py "Fatwa"; py "url" := url;
              py "content" := py "Ruling text" ]}]
          query)).

(** Two retrieval records with one reference each. *)
Definition two_rag_records : list tool_result :=
  [rag_record (py "q1") (py "X") (py "islamqa") (py "Eating breaks the fast");
   rag_record (py "q2") (py "Y") (py "sunnah") (py "Intention is required")].

(** Two web-search records with one hit each. *)
Definition two_web_records : list tool_result :=
  [web_record (py "q1") (py "X") (py "https://a.example");
   web_record (py "q2") (py "Y") (py "https://b.example")].

End Scenario.

(** ** Vocabulary of the further properties *)

Module Behaviour.
Import ToolUsageAgent SynthesisAgent Orchestrator QueryRewriterAgent Spec.

(** *** Origin lists of the synthesis input *)

Definition hit_url (web_result : gmap (list N) (list N)) : str :=
  default [] (web_result !! py "url").

(** What one record adds to [sources["RAG"]]. *)
Definition record_sources (r : tool_result) : list str :=
  match tr_result r with
  | RAG_output result =>
      if decide (tr_tool r = RAG) then RAGResult.sources_used result else []
  | Web_output _ => []
  end.

(** What one record adds to [sources["InternetSearch"]]. *)
Definition record_urls (r : tool_result) : list str :=
  match tr_result r with
  | Web_output result =>
      if decide (tr_tool r = InternetSearch)
      then List.map hit_url (WebSearchResult.results result) else []
  | RAG_output _ => []
  end.

(** *** Records of the executor *)

Definition invocation_label (inv : invocation) : str * str :=
  (inv_tool inv, inv_query inv).

Definition record_label (r : tool_result) : str * str :=
  (tr_tool r, tr_query r).

(** The tool label of a record names the kind of its result. *)
Definition kind_consistent (r : tool_result) : Prop :=
  match tr_result r with
  | RAG_output _ => tr_tool r = RAG
  | Web_output _ => tr_tool r = InternetSearch
  end.

Definition record_rag (r : tool_result) : option RAGResult.t :=
  match tr_result r with RAG_output x => Some x | Web_output _ => None end.

Definition record_web (r : tool_result) : option WebSearchResult.t :=
  match tr_result r with Web_output x => Some x | RAG_output _ => None end.

(** A pointer that is set points to the last record of its kind. *)
Definition points_to_last {A} (pointer : option A) (of_kind : list A) : Prop :=
  forall x, pointer = Some x -> last of_kind = Some x.

(** The retrieval backend raises on every call, in every state. *)
Definition retrieval_down {W} (E : Env W) : Prop :=
  forall query max_tokens w,
    exists e w', requests_post_rag E query max_tokens w = (Raise e, w').

(** *** Final answers *)

(** The fixed answer of the failure paths, for some error text. *)
Definition is_fallback (fa : FinalAnswer.t) : Prop :=
  exists e,
    fa = FinalAnswer.mk (apology e) 0%Q (py "Error fallback") no_references.

(** A chat answer with its citation markers substituted, carrying the
    origin lists of the records it was synthesized from. *)
Definition is_synthesis (query : str) (fa : FinalAnswer.t) : Prop :=
  exists raw records,
    let refs :=
      snd (_prepare_synthesis_input_from_tool_results query records) in
    fa = FinalAnswer.mk (_replace_reference_tags raw refs) 0%Q [] refs.

(** The chat backend answers every call with a reply that has no content. *)
Definition chat_silent {W} (E : Env W) : Prop :=
  forall messages max_tokens w,
    exists w', chat_completions_create E messages max_tokens w = (Ok None, w').

(** *** Thinking mode *)

(** The text handed back as the thinking message: the reply up to its first
    closing delimiter, or the whole reply when there is none. *)
Definition thinking_part (output thinking : str) : Prop :=
  if contains (py "</think>") output
  then (exists rest, output = thinking ++ py "</think>" ++ rest)
       /\ contains (py "</think>") thinking = false
  else thinking = output.

(** *** Parts of the rewriter reply *)

(** [a] occurs in [b] as a contiguous part. *)
Definition part_of (a b : str) : Prop := exists pre post, b = pre ++ a ++ post.

Definition default_improvement : str :=
  py "Query processed for Islamic context".

(** What one turn of the parser loop may change: the rewritten query is
    kept or becomes a part of the response, and every improvement that is
    added is a part of the response. *)
Definition step_from (response : str) (st st' : parse_state) : Prop :=
  (st_rewritten_query st' = st_rewritten_query st
   \/ part_of (st_rewritten_query st') response)
  /\ exists new,
       st_improvements st' = st_improvements st ++ new
       /\ Forall (fun i => part_of i response) new.

(** *** Planner outputs *)

(** An invocation written the way the planner is asked to write it. *)
Definition render (inv : invocation) : str :=
  if decide (inv_tool inv = py "RAG")
  then rag_open ++ inv_query inv ++ rag_close
  else search_open ++ inv_query inv ++ search_close.

(** A planner output: invocations, each after some text, and a last text. *)
Definition plan_text (items : list (str * invocation)) (trailer : str) : str :=
  concat (List.map (fun item => fst item ++ render (snd item)) items)
  ++ trailer.

(** An invocation of one of the two tools whose query has no [<] and no
    whitespace at its ends. *)
Definition plain_invocation (inv : invocation) : Prop :=
  (inv_tool inv = py "RAG" \/ inv_tool inv = py "InternetSearch")
  /\ free_of lt_sign (inv_query inv) = true
  /\ strip (inv_query inv) = inv_query inv.

Definition is_RAG (inv : invocation) : bool :=
  bool_decide (inv_tool inv = py "RAG").

Definition is_InternetSearch (inv : invocation) : bool :=
  bool_decide (inv_tool inv = py "InternetSearch").

(** No occurrence of [p] starts inside [a], whatever follows [a]. *)
Definition clear_of (p a : str) : Prop :=
  forall a1 a2 s, a = a1 ++ a2 -> a2 <> [] -> startswith p (a2 ++ s) = false.

(** [p] and [a] differ at a position both have. *)
Fixpoint mismatch (p a : str) : bool :=
  match p, a with
  | x :: p', y :: a' => negb (x =? y)%N || mismatch p' a'
  | _, _ => false
  end.

Fixpoint scan_clear (p a : str) : bool :=
  match a with
  | [] => true
  | _ :: a' => mismatch p a && scan_clear p a'
  end.

(** A block of a planner output as one pass of the extraction sees it: a
    block of its own kind or of the other kind. *)
Definition block (opening closing other_opening other_closing : str)
  (own : invocation -> bool) (inv : invocation) : str :=
  if own inv then opening ++ inv_query inv ++ closing
  else other_opening ++ inv_query inv ++ other_closing.

(** *** Retrieval results *)

(** [list(set(l))]: the elements of [l], each once, in some order. *)
Definition set_like {W} (E : Env W) : Prop :=
  forall l : list (list N),
    NoDup (list_set E l) /\ forall x, x ∈ list_set E l <-> x ∈ l.

Definition raw_source (ref : gmap (list N) (list N)) : list N :=
  default (py "Unknown source") (ref !! py "source").

End Behaviour.

(** ** Further concrete runs *)

Module Runs.
Import ToolUsageAgent SynthesisAgent Scenario.

Definition ticking (w : nat) : Q := inject_Z (Z.of_nat w).

Definition plan_reply : str :=
  py "<RAG><query>conditions invalidating fasting</query></RAG> <InternetSearch><search_query>fatwa on insulin</search_query></InternetSearch>".

(** The planner's reply is a plan, retrieval answers. *)
Definition env_working : Env nat :=
  scripted (Ok (Some plan_reply)) (Ok same_source_reply) ticking.

(** The planner's reply is a plan, retrieval is down. *)
Definition env_planning_only : Env nat :=
  scripted (Ok (Some plan_reply)) unreachable ticking.

Definition env_silent : Env nat := scripted (Ok None) unreachable ticking.

Definition refs_both : gmap (list N) (list (list N)) :=
  {[ RAG := [py "islamqa"; py "sunnah"];
     InternetSearch := [py "https://a.example"] ]}.

Definition hit_a : gmap (list N) (list N) :=
  {[ py "title" := py "Fatwa"; py "url" := py "https://a.example";
     py "content" := py "Ruling text" ]}.

Definition hit_b : gmap (list N) (list N) :=
  {[ py "title" := py "Article"; py "url" := py "https://b.example";
     py "content" := py "Commentary" ]}.

Definition two_item_plan : list (str * invocation) :=
  [([], mk_invocation (py "InternetSearch") (py "fatwa on insulin"));
   ([newline], mk_invocation (py "RAG") (py "what breaks the fast"))].

End Runs.

(** * Properties *)

Import Spec Scenario.
Import QueryRewriterAgent ToolUsageAgent SynthesisAgent Orchestrator.

(** ** Prefixes, occurrences and [replace] *)

Example replace_leftmost : replace (py "ab") (py "X") (py "cababa") = py "cXXa".
Proof. reflexivity. Qed.

Example replace_not_rescanned : replace (py "a") (py "aa") (py "a.a") = py "aa.aa".
Proof. reflexivity. Qed.

Example findall_shortest :
  findall (py "<a>") (py "</a>") (py "<a><a>x</a> <a>y</a><a>")
  = [py "<a>x"; py "y"].
Proof. reflexivity. Qed.

Example strip_both_ends : strip (10 :: py "  a b  ")%N = py "a b".
Proof. reflexivity. Qed.

Lemma startswith_app (p r : str) : startswith p (p ++ r) = true.
Proof. induction p as [|a p IH]; simpl; [done|]. by rewrite N.eqb_refl. Qed.

Lemma startswith_true (p s : str) :
  startswith p s = true -> s = p ++ drop (length p) s.
Proof.
  revert s. induction p as [|a p IH]; intros [|b s]; simpl; try done.
  intros [Hab Hp]%andb_prop. apply N.eqb_eq in Hab as ->. f_equal. by apply IH.
Qed.

Lemma startswith_iff (p s : str) :
  startswith p s = true <-> exists r, s = p ++ r.
Proof.
  split.
  - intros H. eexists. by apply startswith_true.
  - intros [r ->]. apply startswith_app.
Qed.

Lemma startswith_head_ne (a c : N) (p s : str) :
  c <> a -> startswith (a :: p) (c :: s) = false.
Proof. intros Hne. simpl. apply N.eqb_neq in Hne. rewrite N.eqb_sym in Hne. by rewrite Hne. Qed.

Lemma replace_fuel_enough (old new : str) (n m : nat) (s : str) :
  old <> [] -> length s <= n -> length s <= m ->
  replace_fuel n old new s = replace_fuel m old new s.
Proof.
  intros Hold. revert m s. induction n as [|n IH]; intros m s Hn Hm.
  - destruct s; [|simpl in Hn; lia]. by destruct m.
  - destruct s as [|c s]; [by destruct m|].
    destruct m as [|m]; [simpl in Hm; lia|]. cbn [replace_fuel]. simpl in Hn, Hm.
    destruct old as [|a o]; [done|].
    destruct (startswith _ _).
    + f_equal. apply IH; rewrite length_drop; simpl; lia.
    + f_equal. apply IH; lia.
Qed.

Lemma replace_nil (old new : str) : old <> [] -> replace old new [] = [].
Proof. by destruct old. Qed.

Lemma replace_cons (old new : str) (c : N) (s : str) :
  old <> [] ->
  replace old new (c :: s) =
  if startswith old (c :: s)
  then new ++ replace old new (drop (length old) (c :: s))
  else c :: replace old new s.
Proof.
  intros Hold. destruct old as [|a o]; [done|].
  unfold replace. cbn [length replace_fuel].
  destruct (startswith _ _).
  - f_equal. apply replace_fuel_enough; [done| |done].
    simpl. rewrite length_drop. lia.
  - done.
Qed.

Lemma replace_hit (old new s : str) :
  old <> [] -> replace old new (old ++ s) = new ++ replace old new s.
Proof.
  intros Hold. destruct old as [|a o] eqn:Eo; [done|]. rewrite <- Eo in *.
  assert (Hl : old ++ s = a :: (o ++ s)) by by rewrite Eo.
  rewrite Hl, replace_cons, <- Hl by done.
  by rewrite startswith_app, drop_app_length.
Qed.

Lemma replace_skip (a c : N) (o new s : str) :
  c <> a -> replace (a :: o) new (c :: s) = c :: replace (a :: o) new s.
Proof. intros Hne. rewrite replace_cons by done. by rewrite startswith_head_ne. Qed.

Lemma replace_skip_all (a : N) (o new l s : str) :
  Forall (fun c => c <> a) l ->
  replace (a :: o) new (l ++ s) = l ++ replace (a :: o) new s.
Proof.
  induction 1 as [|c l Hc _ IH]; [done|]. cbn [app].
  rewrite replace_skip by done. by rewrite IH.
Qed.

Lemma contains_here (p s : str) :
  startswith p s = true -> contains p s = true.
Proof. intros H. destruct s; simpl in *; by rewrite H. Qed.

Lemma contains_iff (p s : str) :
  contains p s = true <-> exists pre post, s = pre ++ p ++ post.
Proof.
  split.
  - induction s as [|c s IH]; simpl.
    + rewrite orb_false_r. intros [r Hr]%startswith_iff. by exists [], r.
    + intros [H|H]%orb_prop.
      * apply startswith_iff in H as [r Hr]. by exists [], r.
      * destruct (IH H) as (pre & post & ->). by exists (c :: pre), post.
  - intros (pre & post & ->). induction pre as [|c pre IH].
    + cbn [app]. apply contains_here, startswith_app.
    + simpl. rewrite IH. apply orb_true_r.
Qed.

(** ** Texts made of plain characters and tags *)

Lemma first_occurrence (x : N) (l1 l2 r1 r2 : str) :
  Forall (fun c => c <> x) l1 -> Forall (fun c => c <> x) l2 ->
  l1 ++ x :: r1 = l2 ++ x :: r2 -> l1 = l2.
Proof.
  intros H1. revert l2. induction H1 as [|a l1 Ha _ IH]; intros l2 H2 E.
  - destruct l2 as [|b l2]; [done|]. simpl in E. injection E as <- _.
    by apply Forall_cons in H2 as [? _].
  - destruct l2 as [|b l2]; simpl in E.
    + injection E as -> _. done.
    + injection E as -> E. apply Forall_cons in H2 as [_ H2]. f_equal. by apply IH.
Qed.

Lemma tag_shaped_prefix (p q r1 r2 : str) :
  tag_shaped p -> tag_shaped q -> p ++ r1 = q ++ r2 -> p = q.
Proof.
  intros (b1 & -> & H1) (b2 & -> & H2) E. simpl in E. injection E as E.
  rewrite <- !app_assoc in E. simpl in E.
  apply first_occurrence in E as ->; [done| |].
  - eapply Forall_impl; [exact H1|]. by intros ? [_ ?].
  - eapply Forall_impl; [exact H2|]. by intros ? [_ ?].
Qed.

Lemma tag_shaped_nonempty (p : str) : tag_shaped p -> p <> [].
Proof. by intros (b & -> & _). Qed.

Lemma tag_shaped_not_single (p : str) (c : N) : tag_shaped p -> p <> [c].
Proof. intros (b & -> & _). destruct b; done. Qed.

Lemma startswith_tag (p t r : str) :
  tag_shaped p -> tag_shaped t -> startswith p (t ++ r) = true -> p = t.
Proof.
  intros Hp Ht [r' E]%startswith_iff. symmetry. by eapply tag_shaped_prefix.
Qed.

Lemma replace_over_tag (old new t s : str) :
  tag_shaped old -> tag_shaped t -> old <> t ->
  replace old new (t ++ s) = t ++ replace old new s.
Proof.
  intros Hold Ht Hne.
  assert (Hs : startswith old (t ++ s) = false).
  { destruct (startswith old (t ++ s)) eqn:E; [|done].
    destruct Hne. by eapply startswith_tag. }
  destruct Ht as (b & -> & Hb). destruct Hold as (bo & Eo & _).
  cbn [app] in *. rewrite replace_cons by (by rewrite Eo). rewrite Hs.
  rewrite Eo. f_equal.
  rewrite (replace_skip_all _ _ _ (b ++ [gt_sign])); [done|].
  apply Forall_app. split.
  - eapply Forall_impl; [exact Hb|]. by intros ? [? _].
  - by repeat constructor.
Qed.

Lemma concat_explode (s : str) : concat (explode s) = s.
Proof. induction s as [|c s IH]; simpl; by f_equal. Qed.

Lemma concat_subst_pieces (old new : str) (ps : list str) :
  concat (subst_pieces old new ps) =
  concat (List.map (fun p => if decide (p = old) then new else p) ps).
Proof.
  induction ps as [|p ps IH]; [done|]. unfold subst_pieces in *. simpl.
  rewrite concat_app, IH. f_equal. unfold subst_piece.
  destruct (decide _); [apply concat_explode|]. simpl. by rewrite app_nil_r.
Qed.

(** On a text made of plain characters and tags, replacing a tag works tag
    by tag. *)
Lemma replace_concat (old new : str) (ps : list str) :
  tag_shaped old -> Forall piece_ok ps ->
  replace old new (concat ps) = concat (subst_pieces old new ps).
Proof.
  intros Hold Hps. rewrite concat_subst_pieces.
  induction Hps as [|p ps Hp _ IH]; simpl.
  - apply replace_nil. by apply tag_shaped_nonempty.
  - rewrite <- IH. destruct Hp as [c Hc|p Hp].
    + destruct (decide _) as [E|_].
      { exfalso. symmetry in E. by eapply tag_shaped_not_single. }
      destruct Hold as (bo & -> & _). simpl. by apply replace_skip.
    + destruct (decide _) as [->|Hne].
      * apply replace_hit. by apply tag_shaped_nonempty.
      * by apply replace_over_tag.
Qed.

Lemma explode_ok (s : str) :
  free_of lt_sign s = true -> Forall piece_ok (explode s).
Proof.
  induction s as [|c s IH]; simpl; [constructor|].
  intros [Hc Hs]%andb_prop. constructor; [|by apply IH].
  apply piece_plain. apply negb_true_iff, N.eqb_neq in Hc. done.
Qed.

Lemma subst_pieces_ok (old new : str) (ps : list str) :
  free_of lt_sign new = true -> Forall piece_ok ps ->
  Forall piece_ok (subst_pieces old new ps).
Proof.
  intros Hnew. induction 1 as [|p ps Hp _ IH]; [constructor|].
  unfold subst_pieces in *. simpl. apply Forall_app. split; [|done].
  unfold subst_piece. destruct (decide _); [by apply explode_ok|by constructor].
Qed.

(** A tag occurring in a text made of pieces is one of the pieces. *)
Lemma tag_in_concat (t pre post : str) (ps : list str) :
  tag_shaped t -> Forall piece_ok ps ->
  concat ps = pre ++ t ++ post -> t ∈ ps.
Proof.
  intros Ht Hps. revert pre. induction Hps as [|p ps Hp _ IH]; intros pre E.
  - simpl in E. destruct Ht as (b & -> & _). by destruct pre.
  - simpl in E. destruct Hp as [c Hc|p Hp].
    + destruct pre as [|c' pre]; simpl in E.
      * destruct Ht as (b & -> & _). simpl in E. by injection E as -> _.
      * injection E as -> E. right. by eapply IH.
    + destruct pre as [|c pre].
      { assert (p = t) as -> by by eapply tag_shaped_prefix. left. }
      destruct (decide (length p <= length (c :: pre))) as [Hle|Hgt].
      * right. apply (IH (drop (length p) (c :: pre))).
        apply (f_equal (drop (length p))) in E.
        rewrite drop_app_length in E. rewrite E.
        by rewrite drop_app_le.
      * exfalso.
        assert (Hl : (p ++ concat ps) !! length (c :: pre) = Some lt_sign).
        { rewrite E, lookup_app_r, Nat.sub_diag by done.
          by destruct Ht as (b & -> & _). }
        rewrite lookup_app_l in Hl by lia.
        destruct Hp as (b & -> & Hb). simpl in Hl.
        apply list_elem_of_lookup_2, elem_of_app in Hl as [Hl|Hl].
        -- rewrite Forall_forall in Hb. by destruct (Hb _ Hl).
        -- by apply list_elem_of_singleton in Hl.
Qed.

(** ** The substitution loop on pieces *)

Lemma well_tagged_inside (s : str) :
  well_tagged_from true s = true ->
  exists body rest, s = body ++ gt_sign :: rest /\
    Forall (fun c => c <> lt_sign /\ c <> gt_sign) body /\
    well_tagged_from false rest = true /\ length rest < length s.
Proof.
  induction s as [|c s IH]; simpl; [done|].
  destruct (N.eqb_spec c lt_sign) as [|Hlt]; [done|].
  destruct (N.eqb_spec c gt_sign) as [->|Hgt].
  - intros H. exists [], s. repeat split; [constructor|done|lia].
  - intros H. destruct (IH H) as (b & r & -> & Hb & Hr & Hlen).
    exists (c :: b), r. repeat split; [by constructor|done|].
    simpl. lia.
Qed.

Lemma well_tagged_pieces (s : str) :
  well_tagged s = true -> exists ps, Forall piece_ok ps /\ s = concat ps.
Proof.
  unfold well_tagged. remember (length s) as n eqn:Hn.
  assert (Hle : length s <= n) by lia. clear Hn. revert s Hle.
  induction n as [|n IH]; intros [|c s] Hle H; simpl in Hle;
    try lia; try (by exists []).
  simpl in H. destruct (N.eqb_spec c lt_sign) as [->|Hlt].
  - apply well_tagged_inside in H as (b & r & -> & Hb & Hr & Hlen).
    destruct (IH r) as (ps & Hps & ->); [lia|done|].
    exists ((lt_sign :: b ++ [gt_sign]) :: ps). split.
    + constructor; [|done]. apply piece_tag. by exists b.
    + simpl. by rewrite <- app_assoc.
  - destruct (IH s) as (ps & Hps & ->); [lia|done|].
    exists ([c] :: ps). split; [|done]. constructor; [by apply piece_plain|done].
Qed.

Lemma free_of_bracketed (ref : str) :
  free_of lt_sign ref = true -> free_of lt_sign (py "[" ++ ref ++ py "]") = true.
Proof.
  intros H. unfold free_of in *. rewrite !forallb_app, H. reflexivity.
Qed.

Section Loop.
Variable open_tag : nat -> str.
Variable close_tag : str.
Hypothesis open_shaped : forall i, tag_shaped (open_tag i).
Hypothesis close_shaped : tag_shaped close_tag.

Lemma replace_loop_pieces (i : nat) (refs : list str) (ps : list str) :
  forallb (free_of lt_sign) refs = true -> Forall piece_ok ps ->
  replace_loop open_tag close_tag i refs (concat ps)
  = concat (loop_pieces open_tag close_tag i refs ps)
  /\ Forall piece_ok (loop_pieces open_tag close_tag i refs ps).
Proof.
  revert i ps. induction refs as [|ref refs IH]; intros i ps Hrefs Hps; [done|].
  simpl in Hrefs. apply andb_prop in Hrefs as [Href Hrefs].
  cbn [replace_loop loop_pieces].
  assert (H1 : Forall piece_ok
                 (subst_pieces (open_tag i) (py "[" ++ ref ++ py "]") ps)).
  { apply subst_pieces_ok; [by apply free_of_bracketed|done]. }
  rewrite (replace_concat (open_tag i)); [|apply open_shaped|done].
  rewrite (replace_concat close_tag); [|done|done].
  apply IH; [done|]. by apply subst_pieces_ok.
Qed.

Lemma loop_pieces_app (i : nat) (refs : list str) (ps1 ps2 : list str) :
  loop_pieces open_tag close_tag i refs (ps1 ++ ps2)
  = loop_pieces open_tag close_tag i refs ps1
    ++ loop_pieces open_tag close_tag i refs ps2.
Proof.
  revert i ps1 ps2. induction refs as [|ref refs IH]; intros i ps1 ps2; [done|].
  cbn [loop_pieces]. unfold subst_pieces. by rewrite !flat_map_app, IH.
Qed.

Lemma elem_of_subst_pieces (old new q : str) (ps : list str) :
  q ∈ subst_pieces old new ps ->
  q ∈ explode new \/ (q ∈ ps /\ q <> old).
Proof.
  unfold subst_pieces. rewrite list_elem_of_In, in_flat_map.
  intros (p & Hp%list_elem_of_In & Hq%list_elem_of_In). unfold subst_piece in Hq.
  destruct (decide _) as [->|Hne]; [by left|].
  apply list_elem_of_singleton in Hq as ->. by right.
Qed.

Lemma elem_of_explode (new q : str) : q ∈ explode new -> exists c, q = [c].
Proof.
  unfold explode. rewrite list_elem_of_In, in_map_iff.
  intros (c & <- & _). by exists c.
Qed.

Lemma loop_pieces_elem (i : nat) (refs : list str) (ps : list str) (q : str) :
  q ∈ loop_pieces open_tag close_tag i refs ps ->
  (exists c, q = [c]) \/ (q ∈ ps /\ inert open_tag close_tag i refs q).
Proof.
  revert i ps. induction refs as [|ref refs IH]; intros i ps Hq.
  - right. split; [done|]. split; [simpl; lia|done].
  - cbn [loop_pieces] in Hq. apply IH in Hq as [Hq|[Hq [Hopen Hclose]]]; [by left|].
    apply elem_of_subst_pieces in Hq as [Hq|[Hq Hnc]].
    { simpl in Hq. by apply elem_of_nil in Hq. }
    apply elem_of_subst_pieces in Hq as [Hq|[Hq Hno]].
    { left. by eapply elem_of_explode. }
    right. split; [done|]. split; [|done].
    intros j Hj. destruct (decide (j = i)) as [->|Hne]; [done|].
    apply Hopen. simpl in Hj. lia.
Qed.

Lemma subst_pieces_id (old new : str) (ps : list str) :
  Forall (fun q => q <> old) ps -> subst_pieces old new ps = ps.
Proof.
  induction 1 as [|p ps Hp _ IH]; [done|]. unfold subst_pieces in *. simpl.
  rewrite IH. unfold subst_piece. by destruct (decide _).
Qed.

Lemma loop_pieces_inert (i : nat) (refs : list str) (ps : list str) :
  Forall (inert open_tag close_tag i refs) ps ->
  loop_pieces open_tag close_tag i refs ps = ps.
Proof.
  revert i ps. induction refs as [|ref refs IH]; intros i ps Hps; [done|].
  cbn [loop_pieces]. rewrite !subst_pieces_id.
  - apply IH. eapply Forall_impl; [exact Hps|]. intros q [Ho Hc]. split.
    + intros j Hj. apply Ho. simpl. lia.
    + intros _. by apply Hc.
  - eapply Forall_impl; [exact Hps|]. intros q [Ho Hc]. apply Ho. simpl. lia.
  - rewrite subst_pieces_id.
    + eapply Forall_impl; [exact Hps|]. intros q [Ho Hc]. by apply Hc.
    + eapply Forall_impl; [exact Hps|]. intros q [Ho Hc]. apply Ho. simpl. lia.
Qed.

Lemma single_inert (i : nat) (refs : list str) (c : N) :
  inert open_tag close_tag i refs [c].
Proof.
  split.
  - intros j _ E. symmetry in E.
    exact (tag_shaped_not_single _ _ (open_shaped j) E).
  - intros _ E. symmetry in E.
    exact (tag_shaped_not_single _ _ close_shaped E).
Qed.

Lemma loop_pieces_explode (i : nat) (refs : list str) (s : str) :
  loop_pieces open_tag close_tag i refs (explode s) = explode s.
Proof.
  apply loop_pieces_inert. apply Forall_forall. intros q Hq.
  apply elem_of_explode in Hq as [c ->]. apply single_inert.
Qed.

(** The tag numbered [i + k] becomes the bracketed [k]-th reference. *)
Lemma loop_pieces_hit (i k : nat) (refs : list str) (ref : str) :
  refs !! k = Some ref ->
  (forall j, i <= j < i + k -> open_tag j <> open_tag (i + k)) ->
  close_tag <> open_tag (i + k) ->
  loop_pieces open_tag close_tag i refs [open_tag (i + k)]
  = explode (py "[" ++ ref ++ py "]").
Proof.
  revert i k. induction refs as [|r refs IH]; intros i k Hk Hdiff Hclose; [done|].
  cbn [loop_pieces]. destruct k as [|k].
  - injection Hk as ->. rewrite Nat.add_0_r.
    unfold subst_pieces at 2. simpl. unfold subst_piece at 1.
    rewrite decide_True by done. rewrite app_nil_r.
    rewrite subst_pieces_id.
    + apply loop_pieces_explode.
    + apply Forall_forall. intros q Hq. apply elem_of_explode in Hq as [c ->].
      intros E. symmetry in E.
      exact (tag_shaped_not_single _ _ close_shaped E).
  - simpl in Hk. rewrite !subst_pieces_id.
    + replace (i + S k) with (S i + k) by lia. apply IH; [done| |].
      * intros j Hj. replace (S i + k) with (i + S k) by lia. apply Hdiff. lia.
      * by replace (S i + k) with (i + S k) by lia.
    + constructor; [|constructor]. intros E. apply (Hdiff i); [lia|done].
    + rewrite subst_pieces_id.
      * constructor; [|constructor]. by intros E.
      * constructor; [|constructor]. intros E. apply (Hdiff i); [lia|done].
Qed.

End Loop.

(** ** The four citation tags *)

Lemma string_of_uint_digits (u : Decimal.uint) :
  Forall is_digit (py (NilEmpty.string_of_uint u)).
Proof.
  induction u; simpl; constructor; try done; unfold is_digit; simpl; lia.
Qed.

Lemma str_of_nat_digits (i : nat) : Forall is_digit (str_of_nat i).
Proof. apply string_of_uint_digits. Qed.

Lemma digits_no_angle (s : str) :
  Forall is_digit s -> Forall (fun c => c <> lt_sign /\ c <> gt_sign) s.
Proof.
  intros H. eapply Forall_impl; [exact H|].
  unfold is_digit, lt_sign, gt_sign. intros c Hc. lia.
Qed.

Lemma open_RAG_shaped (i : nat) : tag_shaped (open_RAG i).
Proof.
  exists (py "RAG id=" ++ str_of_nat i). split.
  - unfold open_RAG. simpl. done.
  - apply Forall_app. split; [|apply digits_no_angle, str_of_nat_digits].
    repeat constructor; done.
Qed.

Lemma open_Internet_shaped (i : nat) : tag_shaped (open_Internet i).
Proof.
  exists (py "Internet id=" ++ str_of_nat i). split.
  - unfold open_Internet. simpl. done.
  - apply Forall_app. split; [|apply digits_no_angle, str_of_nat_digits].
    repeat constructor; done.
Qed.

Lemma close_RAG_shaped : tag_shaped close_RAG.
Proof. exists (py "/RAG"). split; [done|]. repeat constructor; done. Qed.

Lemma close_Internet_shaped : tag_shaped close_Internet.
Proof. exists (py "/Internet"). split; [done|]. repeat constructor; done. Qed.

Lemma startswith_shorter (p a b : str) :
  startswith p (a ++ b) = true -> length p <= length a -> startswith p a = true.
Proof.
  revert a. induction p as [|x p IH]; intros [|y a]; simpl; try done; try lia.
  intros [-> H]%andb_prop Hle. simpl. apply IH; [done|lia].
Qed.

Lemma startswith_length (p s : str) :
  startswith p s = true -> length p <= length s.
Proof. intros [r ->]%startswith_iff. rewrite length_app. lia. Qed.

Lemma startswith_longer (p a b : str) :
  startswith p a = true -> startswith p (a ++ b) = true.
Proof.
  intros [r ->]%startswith_iff. rewrite <- app_assoc. apply startswith_app.
Qed.

(** A tag that is not the pattern splits the text: the replacement works on
    the two sides separately. *)
Lemma replace_around_tag (old new t pre post : str) :
  tag_shaped old -> tag_shaped t -> old <> t ->
  replace old new (pre ++ t ++ post)
  = replace old new pre ++ t ++ replace old new post.
Proof.
  intros Hold Ht Hne.
  assert (Hnil : old <> []) by by apply tag_shaped_nonempty.
  remember (length pre) as n eqn:Hn.
  assert (Hle : length pre <= n) by lia. clear Hn. revert pre Hle.
  induction n as [|n IH]; intros [|c pre] Hle; simpl in Hle; try lia.
  - rewrite replace_nil by done. cbn [app]. by apply replace_over_tag.
  - rewrite replace_nil by done. cbn [app]. by apply replace_over_tag.
  - cbn [app]. rewrite !replace_cons by done.
    destruct (startswith old (c :: pre)) eqn:Hs.
    + change (c :: pre ++ t ++ post) with ((c :: pre) ++ t ++ post).
      rewrite (startswith_longer _ _ _ Hs).
      assert (Hlen : length old <= length (c :: pre)).
      { by apply startswith_length. }
      rewrite drop_app_le by done. rewrite IH, app_assoc; [done|].
      rewrite length_drop. destruct old; [done|]. simpl in *. lia.
    + destruct (startswith old (c :: pre ++ t ++ post)) eqn:Hs'.
      * exfalso.
        change (c :: pre ++ t ++ post) with ((c :: pre) ++ t ++ post) in Hs'.
        destruct (decide (length old <= length (c :: pre))) as [Hl|Hl].
        { apply startswith_shorter in Hs'; [congruence|done]. }
        apply startswith_true in Hs'.
        assert (Hk : old !! length (c :: pre) = Some lt_sign).
        { apply (f_equal (fun l => l !! length (c :: pre))) in Hs'.
          rewrite lookup_app_r, Nat.sub_diag in Hs' by done.
          rewrite (lookup_app_l old) in Hs' by lia.
          rewrite <- Hs'. by destruct Ht as (b & -> & _). }
        destruct Hold as (b & -> & Hb). simpl in Hk.
        apply list_elem_of_lookup_2, elem_of_app in Hk as [Hk|Hk].
        -- rewrite Forall_forall in Hb. by destruct (Hb _ Hk).
        -- by apply list_elem_of_singleton in Hk.
      * rewrite IH by lia. done.
Qed.

Lemma replace_loop_around_tag (open_tag : nat -> str) (close_tag : str)
  (i : nat) (refs : list str) (t pre post : str) :
  (forall j, tag_shaped (open_tag j)) -> tag_shaped close_tag ->
  tag_shaped t -> (forall j, open_tag j <> t) -> close_tag <> t ->
  replace_loop open_tag close_tag i refs (pre ++ t ++ post)
  = replace_loop open_tag close_tag i refs pre ++ t
    ++ replace_loop open_tag close_tag i refs post.
Proof.
  intros Ho Hc Ht Hno Hnc. revert i pre post.
  induction refs as [|ref refs IH]; intros i pre post; [done|].
  cbn [replace_loop]. rewrite !replace_around_tag by done. apply IH.
Qed.

Lemma open_RAG_ne_open_Internet (i j : nat) : open_RAG i <> open_Internet j.
Proof. unfold open_RAG, open_Internet. simpl. intros E. discriminate E. Qed.

Lemma open_RAG_ne_close (i : nat) :
  open_RAG i <> close_RAG /\ open_RAG i <> close_Internet.
Proof. unfold open_RAG. simpl. split; intros E; discriminate E. Qed.

Lemma open_Internet_ne_close (i : nat) :
  open_Internet i <> close_RAG /\ open_Internet i <> close_Internet.
Proof. unfold open_Internet. simpl. split; intros E; discriminate E. Qed.

Lemma close_RAG_ne_close_Internet : close_RAG <> close_Internet.
Proof. done. Qed.

(** ** Citation substitution on well-tagged answers *)

Lemma replace_tags_pieces references ps :
  origins_plain references = true -> Forall piece_ok ps ->
  _replace_reference_tags (concat ps) references
  = concat (final_pieces references ps)
  /\ Forall piece_ok (final_pieces references ps).
Proof.
  intros [Hr Hn]%andb_prop Hps. unfold _replace_reference_tags, final_pieces.
  destruct (replace_loop_pieces open_RAG close_RAG open_RAG_shaped
              close_RAG_shaped 1 _ ps Hr Hps) as [-> Hps'].
  by apply replace_loop_pieces;
    [apply open_Internet_shaped|apply close_Internet_shaped| |].
Qed.

Lemma final_pieces_app references ps1 ps2 :
  final_pieces references (ps1 ++ ps2)
  = final_pieces references ps1 ++ final_pieces references ps2.
Proof. unfold final_pieces. by rewrite !loop_pieces_app. Qed.

Lemma final_pieces_elem references ps q :
  q ∈ final_pieces references ps ->
  (exists c, q = [c]) \/
  (q ∈ ps
   /\ inert open_RAG close_RAG 1 (default [] (references !! RAG)) q
   /\ inert open_Internet close_Internet 1
        (default [] (references !! InternetSearch)) q).
Proof.
  unfold final_pieces. intros [H|[H Hn]]%loop_pieces_elem; [by left|].
  apply loop_pieces_elem in H as [H|[H Hr]]; [by left|by right].
Qed.

Lemma final_pieces_idem references ps :
  final_pieces references (final_pieces references ps)
  = final_pieces references ps.
Proof.
  unfold final_pieces at 1.
  rewrite (loop_pieces_inert open_RAG close_RAG).
  - apply loop_pieces_inert. apply Forall_forall. intros q Hq.
    apply final_pieces_elem in Hq as [[c ->]|(_ & _ & H)]; [|done].
    apply single_inert; [apply open_Internet_shaped|apply close_Internet_shaped].
  - apply Forall_forall. intros q Hq.
    apply final_pieces_elem in Hq as [[c ->]|(_ & H & _)]; [|done].
    apply single_inert; [apply open_RAG_shaped|apply close_RAG_shaped].
Qed.

(** C4, as amended.  On an answer in which every [<] opens a tag closed
    before the next [<], and with origins that contain no [<], substituting
    the citation markers a second time changes nothing. *)
Theorem citation_substitution_idempotent (text : str) (references : gmap (str) (list str)) :
  well_tagged text = true ->
  origins_plain references = true ->
  _replace_reference_tags (_replace_reference_tags text references) references
  = _replace_reference_tags text references.
Proof.
  intros (ps & Hps & ->)%well_tagged_pieces Ho.
  destruct (replace_tags_pieces references ps Ho Hps) as [-> Hps'].
  destruct (replace_tags_pieces references _ Ho Hps') as [-> _].
  by rewrite final_pieces_idem.
Qed.

(** C3, as amended.  For an answer in which every [<] opens a tag closed
    before the next [<], and origins that contain no [<]: if the answer
    contains [<RAG id=2>] and the RAG list has a second entry, the
    post-processed answer contains that entry in brackets and contains
    neither [<RAG id=2>] nor [</RAG>]. *)
Theorem citation_round_trip (text origin_2 : str)
  (references : gmap (str) (list str)) :
  well_tagged text = true ->
  origins_plain references = true ->
  contains (py "<RAG id=2>") text = true ->
  default [] (references !! RAG) !! 1 = Some origin_2 ->
  let answer := _replace_reference_tags text references in
  contains (py "[" ++ origin_2 ++ py "]") answer = true
  /\ contains (py "<RAG id=2>") answer = false
  /\ contains (py "</RAG>") answer = false.
Proof.
  intros (ps & Hps & ->)%well_tagged_pieces Ho Hin H2 answer. subst answer.
  destruct (replace_tags_pieces references ps Ho Hps) as [-> Hps'].
  change (py "<RAG id=2>") with (open_RAG 2) in *.
  change (py "</RAG>") with close_RAG.
  split; [|split].
  - apply contains_iff in Hin as (pre & post & E).
    apply tag_in_concat in E; [|apply open_RAG_shaped|done].
    apply list_elem_of_split in E as (ps1 & ps2 & ->).
    change (ps1 ++ open_RAG 2 :: ps2) with (ps1 ++ [open_RAG 2] ++ ps2).
    rewrite !final_pieces_app, !concat_app. apply contains_iff.
    exists (concat (final_pieces references ps1)),
      (concat (final_pieces references ps2)).
    do 2 f_equal. unfold final_pieces.
    pose proof (loop_pieces_hit open_RAG close_RAG open_RAG_shaped
                  close_RAG_shaped 1 1 _ origin_2 H2) as Hhit.
    change (1 + 1) with 2 in Hhit. rewrite Hhit.
    + rewrite loop_pieces_explode;
        [by rewrite concat_explode|apply open_Internet_shaped
        |apply close_Internet_shaped].
    + intros j Hj. assert (j = 1) as -> by lia. done.
    + done.
  - apply not_true_is_false. intros (pre & post & E)%contains_iff.
    apply tag_in_concat in E; [|apply open_RAG_shaped|done].
    apply final_pieces_elem in E as [[c E]|(_ & [Hno _] & _)].
    + exact (tag_shaped_not_single _ _ (open_RAG_shaped 2) E).
    + apply (Hno 2); [|done]. apply lookup_lt_Some in H2. lia.
  - apply not_true_is_false. intros (pre & post & E)%contains_iff.
    apply tag_in_concat in E; [|apply close_RAG_shaped|done].
    apply final_pieces_elem in E as [[c E]|(_ & [_ Hnc] & _)].
    + exact (tag_shaped_not_single _ _ close_RAG_shaped E).
    + apply Hnc; [|done]. intros E. by rewrite E in H2.
Qed.

(** C3 fails as stated: tag fragments nested in the answer leave a closing
    tag behind, an origin that is itself a closing tag is deleted from its
    brackets, and a web origin that is itself a tag brings the tag back. *)
Lemma citation_round_trip_counterexample :
  (contains (py "<RAG id=2>") (py "<RAG id=2></RA</RA</RAG>G>G>") = true
   /\ length (default [] (refs_two !! RAG)) = 2
   /\ contains (py "</RAG>")
        (_replace_reference_tags (py "<RAG id=2></RA</RA</RAG>G>G>") refs_two)
      = true)
  /\ (contains (py "<RAG id=2>") (py "<RAG id=2>") = true
      /\ default [] (refs_closing_origin !! RAG) !! 1 = Some (py "</RAG>")
      /\ contains (py "[</RAG>]")
           (_replace_reference_tags (py "<RAG id=2>") refs_closing_origin)
         = false)
  /\ (contains (py "<RAG id=2>") (py "<RAG id=2> <Internet id=1>") = true
      /\ length (default [] (refs_web_tag_origin !! RAG)) = 2
      /\ contains (py "<RAG id=2>")
           (_replace_reference_tags (py "<RAG id=2> <Internet id=1>")
              refs_web_tag_origin)
         = true).
Proof. repeat split; vm_compute; reflexivity. Qed.

Lemma citation_round_trip_witness :
  let answer :=
    _replace_reference_tags (py "See <RAG id=2>the ruling</RAG>.") refs_two in
  contains (py "[" ++ py "sunnah" ++ py "]") answer = true
  /\ contains (py "<RAG id=2>") answer = false
  /\ contains (py "</RAG>") answer = false.
Proof.
  apply (citation_round_trip (py "See <RAG id=2>the ruling</RAG>.")
           (py "sunnah") refs_two); vm_compute; reflexivity.
Defined.

(** C4 fails as stated: deleting a closing tag can assemble a new opening
    tag, and an origin that is itself an opening tag is bracketed again. *)
Lemma citation_substitution_counterexample :
  (_replace_reference_tags (py "<RAG </RAG>id=1>") refs_two = py "<RAG id=1>"
   /\ _replace_reference_tags
        (_replace_reference_tags (py "<RAG </RAG>id=1>") refs_two) refs_two
      = py "[islamqa]")
  /\ (_replace_reference_tags (py "<RAG id=1>") refs_tag_origin
      = py "[<RAG id=1>]"
      /\ _replace_reference_tags
           (_replace_reference_tags (py "<RAG id=1>") refs_tag_origin)
           refs_tag_origin
         = py "[[<RAG id=1>]]").
Proof. repeat split; vm_compute; reflexivity. Qed.

Lemma citation_substitution_witness :
  _replace_reference_tags
    (_replace_reference_tags (py "See <RAG id=2>the ruling</RAG>.") refs_two)
    refs_two
  = _replace_reference_tags (py "See <RAG id=2>the ruling</RAG>.") refs_two.
Proof.
  apply (citation_substitution_idempotent
           (py "See <RAG id=2>the ruling</RAG>.") refs_two);
    vm_compute; reflexivity.
Defined.

(** ** Trimming and tag extraction *)

Lemma lstrip_spec (s : str) :
  exists l, s = l ++ lstrip s /\ Forall (fun c => isspace c = true) l
            /\ head_ok (lstrip s).
Proof.
  induction s as [|c s (l & E & Hl & Hh)]; simpl.
  - by exists [].
  - destruct (isspace c) eqn:Hc.
    + exists (c :: l). split; [simpl; by f_equal|]. split; [by constructor|done].
    + exists []. by repeat split.
Qed.

Lemma head_ok_app (s t : str) : s <> [] -> head_ok s -> head_ok (s ++ t).
Proof. by destruct s. Qed.

Lemma rev_nonempty (s : str) : s <> [] -> rev s <> [].
Proof. destruct s as [|c s]; [done|]. simpl. by destruct (rev s). Qed.

Lemma rstrip_spec (s : str) :
  exists r, s = rstrip s ++ r /\ Forall (fun c => isspace c = true) r
            /\ head_ok (rev (rstrip s)).
Proof.
  induction s as [|c s (r & E & Hr & Hh)]; cbn [rstrip].
  - by exists [].
  - destruct (rstrip s) as [|d t] eqn:Et.
    + simpl in E. subst r. destruct (isspace c) eqn:Hc.
      * exists (c :: s). split; [done|]. split; [by constructor|done].
      * exists s. by repeat split.
    + exists r. split; [rewrite E at 1; done|]. split; [done|].
      change (rev (c :: d :: t)) with (rev (d :: t) ++ [c]).
      apply head_ok_app; [by apply rev_nonempty|done].
Qed.

Lemma rstrip_head (s : str) : head_ok s -> head_ok (rstrip s).
Proof.
  destruct s as [|c s]; [done|]. simpl. intros Hc.
  destruct (rstrip s); [by rewrite Hc|done].
Qed.

Lemma strip_trimmed (g : str) : trimmed g (strip g).
Proof.
  unfold strip. destruct (lstrip_spec g) as (l & El & Hl & Hh).
  destruct (rstrip_spec (lstrip g)) as (r & Er & Hr & Hr').
  exists l, r. split; [by rewrite <- Er|]. repeat split; try done.
  by apply rstrip_head.
Qed.

Lemma lstrip_fixed (s : str) : head_ok s -> lstrip s = s.
Proof. destruct s as [|c s]; [done|]. simpl. by intros ->. Qed.

Lemma rstrip_fixed (s : str) : head_ok (rev s) -> rstrip s = s.
Proof.
  induction s as [|c s IH]; [done|]. cbn [rstrip]. intros H.
  destruct s as [|d s].
  - simpl in *. by rewrite H.
  - rewrite IH; [done|].
    change (rev (c :: d :: s)) with (rev (d :: s) ++ [c]) in H.
    pose proof (rev_nonempty (d :: s)) as Hne.
    destruct (rev (d :: s)); [by destruct Hne|done].
Qed.

Lemma strip_idem (s : str) : strip (strip s) = strip s.
Proof.
  destruct (strip_trimmed s) as (l & r & _ & _ & _ & Hh & Hr).
  unfold strip at 1. rewrite lstrip_fixed by done. by apply rstrip_fixed.
Qed.

Lemma find_sub_None (p s : str) :
  find_sub p s = None -> forall b a, s <> b ++ p ++ a.
Proof.
  intros H b a E. assert (Hc : contains p s = true).
  { apply contains_iff. by exists b, a. }
  clear E. induction s as [|c s IH]; simpl in *.
  - rewrite orb_false_r in Hc. by rewrite Hc in H.
  - destruct (startswith p (c :: s)); [done|]. simpl in Hc.
    destruct (find_sub p s) as [[? ?]|]; [done|]. by apply IH.
Qed.

Lemma find_sub_Some (p s b a : str) :
  find_sub p s = Some (b, a) ->
  s = b ++ p ++ a /\ forall b' a', s = b' ++ p ++ a' -> length b <= length b'.
Proof.
  revert b. induction s as [|c s IH]; intros b; simpl.
  - destruct (startswith p []) eqn:Hs; [|done]. intros [= <- <-].
    split; [|simpl; lia]. by apply startswith_true in Hs.
  - destruct (startswith p (c :: s)) eqn:Hs.
    + intros [= <- <-]. split; [|simpl; lia]. by apply startswith_true in Hs.
    + destruct (find_sub p s) as [[b0 a0]|]; [|done]. intros [= <- <-].
      destruct (IH b0 eq_refl) as [-> Hmin]. split; [done|].
      intros [|c' b'] a' E.
      * simpl in E. rewrite E, startswith_app in Hs. done.
      * simpl in E. injection E as _ E. simpl. apply Hmin in E. lia.
Qed.

Lemma findall_fuel_groups (opening closing : str) (n : nat) (s : str) :
  opening <> [] -> length s < n ->
  groups opening closing s (findall_fuel n opening closing s).
Proof.
  intros Hop. revert s. induction n as [|n IH]; intros s Hn; [lia|].
  cbn [findall_fuel].
  destruct (find_sub opening s) as [[pre s1]|] eqn:E1.
  - apply find_sub_Some in E1 as [-> Hleft].
    destruct (find_sub closing s1) as [[body s2]|] eqn:E2.
    + apply find_sub_Some in E2 as [-> Hshort].
      apply groups_match.
      * intros pre' body' post' E. by eapply Hleft.
      * done.
      * apply IH. rewrite !length_app in Hn.
        destruct opening; [done|]. simpl in Hn. lia.
    + apply groups_none. intros pre' body' post' E.
      pose proof (Hleft _ _ E) as Hle.
      apply (f_equal (drop (length pre + length opening))) in E.
      rewrite app_assoc, <- length_app, drop_app_length in E.
      rewrite (app_assoc pre'), (app_assoc _ body') in E.
      rewrite drop_app_le in E by (rewrite !length_app; lia).
      by eapply find_sub_None.
  - apply groups_none. intros pre body post E. by eapply find_sub_None.
Qed.

Lemma findall_groups (opening closing s : str) :
  opening <> [] -> groups opening closing s (findall opening closing s).
Proof. intros H. apply findall_fuel_groups; [done|lia]. Qed.

(** A text has one sequence of groups: [groups] determines what
    [findall] returns. *)
Lemma groups_functional (opening closing s : str) (gs1 gs2 : list str) :
  groups opening closing s gs1 -> groups opening closing s gs2 -> gs1 = gs2.
Proof.
  intros H1. revert gs2.
  induction H1 as [s Hno|pre body post gs Hleft Hshort _ IH]; intros gs2 H2.
  - inversion H2 as [|pre2 body2 post2 gs' _ _ _ E]; [done|].
    by destruct (Hno pre2 body2 post2).
  - inversion H2 as [s' Hno|pre2 body2 post2 gs' Hleft2 Hshort2 Hrest2 E];
      subst.
    { by destruct (Hno pre body post). }
    assert (Hlen : length pre = length pre2).
    { pose proof (Hleft _ _ _ (eq_sym E)).
      pose proof (Hleft2 _ _ _ E). lia. }
    apply app_inj_1 in E as [-> E]; [|done].
    apply app_inv_head in E.
    assert (Hlen' : length body = length body2).
    { pose proof (Hshort _ _ (eq_sym E)).
      pose proof (Hshort2 _ _ E). lia. }
    apply app_inj_1 in E as [-> E]; [|done].
    apply app_inv_head in E as ->. f_equal. by apply IH.
Qed.

Lemma lstrip_spaces (l x : str) :
  Forall (fun c => isspace c = true) l -> lstrip (l ++ x) = lstrip x.
Proof. induction 1 as [|c l Hc _ IH]; [done|]. simpl. by rewrite Hc. Qed.

Lemma lstrip_all_spaces (r : str) :
  Forall (fun c => isspace c = true) r -> lstrip r = [].
Proof. induction 1 as [|c r Hc _ IH]; [done|]. simpl. by rewrite Hc. Qed.

Lemma rstrip_all_spaces (r : str) :
  Forall (fun c => isspace c = true) r -> rstrip r = [].
Proof. induction 1 as [|c r Hc _ IH]; [done|]. simpl. by rewrite IH, Hc. Qed.

Lemma rstrip_spaces (x r : str) :
  Forall (fun c => isspace c = true) r -> rstrip (x ++ r) = rstrip x.
Proof.
  intros Hr. induction x as [|c x IH]; simpl.
  - by apply rstrip_all_spaces.
  - by rewrite IH.
Qed.

(** [strip] is the only trimming of a text. *)
Lemma trimmed_strip (g t : str) : trimmed g t -> t = strip g.
Proof.
  intros (l & r & -> & Hl & Hr & Hh & Hrev). unfold strip.
  rewrite lstrip_spaces by done. destruct t as [|c t].
  - simpl. by rewrite lstrip_all_spaces.
  - rewrite lstrip_fixed by done. rewrite rstrip_spaces by done.
    symmetry. by apply rstrip_fixed.
Qed.

(** C5.  The invocations extracted from a planner output are first one RAG
    invocation per [<RAG><query>] match, in the order of appearance of the
    matches, then one InternetSearch invocation per
    [<InternetSearch><search_query>] match, in their order of appearance;
    the query of each is the matched group without its leading and trailing
    whitespace. *)
Theorem tool_invocations_two_passes (response : str) :
  exists rag_groups search_groups rag_invocations search_invocations,
    groups rag_open rag_close response rag_groups
    /\ groups search_open search_close response search_groups
    /\ Forall2 (fun g inv =>
                  inv_tool inv = py "RAG" /\ trimmed g (inv_query inv))
         rag_groups rag_invocations
    /\ Forall2 (fun g inv =>
                  inv_tool inv = py "InternetSearch"
                  /\ trimmed g (inv_query inv))
         search_groups search_invocations
    /\ _parse_tool_invocations (Some response)
       = rag_invocations ++ search_invocations.
Proof.
  exists (findall rag_open rag_close response),
    (findall search_open search_close response).
  eexists _, _. split; [by apply findall_groups|].
  split; [by apply findall_groups|].
  split; [|split; [|reflexivity]].
  - apply Forall2_fmap_r, Forall_Forall2_diag, Forall_forall.
    intros g _. split; [done|apply strip_trimmed].
  - apply Forall2_fmap_r, Forall_Forall2_diag, Forall_forall.
    intros g _. split; [done|apply strip_trimmed].
Qed.

(** C9.  With an empty RAG list every RAG tag of the answer, opening or
    closing, stays where it is, between the rewritten text before it and the
    rewritten text after it; likewise for Internet tags with an empty
    InternetSearch list; with both lists empty the answer is unchanged. *)
Theorem tags_without_origins_stay (text : str) (references : gmap (str) (list str)) :
  (default [] (references !! RAG) = [] ->
   forall pre tag post,
     text = pre ++ tag ++ post ->
     tag = py "</RAG>" \/ (exists i, tag = open_RAG i) ->
     _replace_reference_tags text references
     = _replace_reference_tags pre references ++ tag
       ++ _replace_reference_tags post references)
  /\ (default [] (references !! InternetSearch) = [] ->
      forall pre tag post,
        text = pre ++ tag ++ post ->
        tag = py "</Internet>" \/ (exists i, tag = open_Internet i) ->
        _replace_reference_tags text references
        = _replace_reference_tags pre references ++ tag
          ++ _replace_reference_tags post references)
  /\ (default [] (references !! RAG) = [] ->
      default [] (references !! InternetSearch) = [] ->
      _replace_reference_tags text references = text).
Proof.
  unfold _replace_reference_tags. split; [|split].
  - intros -> pre tag post -> Htag. cbn [replace_loop].
    apply replace_loop_around_tag.
    + apply open_Internet_shaped.
    + apply close_Internet_shaped.
    + destruct Htag as [->|[i ->]]; [apply close_RAG_shaped|apply open_RAG_shaped].
    + intros j. destruct Htag as [->|[i ->]].
      * apply open_Internet_ne_close.
      * intros E. by apply (open_RAG_ne_open_Internet i j).
    + destruct Htag as [->|[i ->]]; [done|].
      intros E. by apply (open_RAG_ne_close i).
  - intros -> pre tag post -> Htag. cbn [replace_loop].
    apply replace_loop_around_tag.
    + apply open_RAG_shaped.
    + apply close_RAG_shaped.
    + destruct Htag as [->|[i ->]];
        [apply close_Internet_shaped|apply open_Internet_shaped].
    + intros j. destruct Htag as [->|[i ->]].
      * apply open_RAG_ne_close.
      * apply open_RAG_ne_open_Internet.
    + destruct Htag as [->|[i ->]]; [done|].
      intros E. by apply (open_Internet_ne_close i).
  - by intros -> ->.
Qed.

Lemma tags_without_origins_witness :
  _replace_reference_tags (py "a</RAG>b<Internet id=1>c") refs_web_only
  = _replace_reference_tags (py "a") refs_web_only ++ py "</RAG>"
    ++ _replace_reference_tags (py "b<Internet id=1>c") refs_web_only.
Proof.
  apply (proj1 (tags_without_origins_stay (py "a</RAG>b<Internet id=1>c")
                  refs_web_only));
    [vm_compute; reflexivity | reflexivity | left; reflexivity].
Defined.

(** ** The query rewriter *)

Lemma nonempty_true (s : str) : nonempty s = true -> s <> [].
Proof. by destruct s. Qed.

Lemma contains_find_sub (p s : str) :
  contains p s = true -> exists b a, find_sub p s = Some (b, a).
Proof.
  induction s as [|c s IH]; simpl.
  - rewrite orb_false_r. intros ->. eauto.
  - destruct (startswith p (c :: s)); [eauto|]. simpl. intros H.
    destruct (IH H) as (b & a & ->). eauto.
Qed.

Lemma split1_second (p s : str) :
  contains p s = true -> exists part, split1 p s !! 1 = Some part.
Proof.
  intros (b & a & E)%contains_find_sub. unfold split1. rewrite E. by exists a.
Qed.

Lemma clean_strip (s : str) :
  nonempty (strip s) = true -> startswith (py "[") (strip s) = false ->
  clean (strip s).
Proof.
  intros H1 H2. split; [by apply nonempty_true|]. split; [apply strip_idem|done].
Qed.

Lemma parse_line_ok (st : parse_state) (raw : str) :
  exists st', parse_line st raw = Ok st'
    /\ (st_rewritten_query st' = st_rewritten_query st
        \/ clean (st_rewritten_query st')).
Proof.
  unfold parse_line.
  destruct (nonempty (strip raw)) eqn:Hne; cbn [negb andb orb]; [|by eauto].
  destruct (startswith (py "1. Rewritten Query:") (strip raw)
            || contains (py "Rewritten Query:") (strip raw)).
  { destruct (contains (py ":") (strip raw)) eqn:Hc; [|by eauto].
    destruct (split1_second _ _ Hc) as [part ->].
    destruct (nonempty (strip part)) eqn:Hp; cbn [negb andb orb]; [|by eauto].
    destruct (startswith (py "[") (strip part)) eqn:Hb; cbn [negb andb orb]; [by eauto|].
    eexists. split; [done|]. right. by apply clean_strip. }
  destruct (startswith (py "2. Improvements Made:") (strip raw)
            || contains (py "Improvements Made:") (strip raw)); [by eauto|].
  destruct (bool_decide (st_current_section st = Some sec_query)); cbn [negb andb orb].
  { destruct (startswith (py "[") (strip raw)) eqn:Hb; cbn [negb andb orb]; [by eauto|].
    destruct (startswith (py "2.") (strip raw)); cbn [negb andb orb]; [by eauto|].
    eexists. split; [done|]. right. by apply clean_strip. }
  destruct (bool_decide (st_current_section st = Some sec_improvements));
    cbn [negb andb orb]; [|by eauto].
  destruct (startswith (py "-") (strip raw) || startswith bullet (strip raw)
            || startswith (py "*") (strip raw)); [by eauto|].
  destruct (startswith (py "[") (strip raw)); cbn [negb andb orb]; by eauto.
Qed.

Lemma parse_lines_ok (lines : list str) (st : parse_state) :
  exists st', parse_lines st lines = Ok st'
    /\ (st_rewritten_query st' = st_rewritten_query st
        \/ clean (st_rewritten_query st')).
Proof.
  revert st. induction lines as [|raw lines IH]; intros st; simpl; [by eauto|].
  destruct (parse_line_ok st raw) as (st1 & -> & H1).
  destruct (IH st1) as (st2 & -> & H2). exists st2. split; [done|].
  destruct H2 as [->|H2]; [done|by right].
Qed.

(** The parser raises only on a response that is [None]. *)
Lemma parse_body_Some (response original_query : str) :
  exists r, parse_body (Some response) original_query = Ok r.
Proof.
  unfold parse_body.
  destruct (parse_lines_ok (split_char newline (strip response))
              (mk_state original_query [] None)) as (st & -> & _).
  eauto.
Qed.

Lemma is_bracketed_clean (r : str) : clean r -> is_bracketed r = false.
Proof. intros (_ & _ & H). unfold is_bracketed. by rewrite H. Qed.

Lemma strip_nonempty (s : str) : strip s <> [] -> s <> [].
Proof. by intros H ->. Qed.

Lemma parse_response_sound (response : option (str)) (original_query : str) :
  strip original_query <> [] -> is_bracketed original_query = false ->
  fst (_parse_response response original_query) <> []
  /\ is_bracketed (fst (_parse_response response original_query)) = false.
Proof.
  intros Hne Hnb. unfold _parse_response, parse_body.
  destruct response as [response|]; [|by split; [apply strip_nonempty|]].
  destruct (parse_lines_ok (split_char newline (strip response))
              (mk_state original_query [] None)) as (st & -> & Hst).
  cbn [fst]. fold (is_bracketed (strip (st_rewritten_query st))).
  destruct Hst as [->|Hc]; cbn [st_rewritten_query].
  - destruct (is_bracketed (strip original_query)) eqn:Hb.
    + by split; [apply strip_nonempty|].
    + done.
  - destruct Hc as (Hr & Hs & Hb). rewrite Hs.
    rewrite (is_bracketed_clean (st_rewritten_query st)) by done.
    split; [done|]. by apply is_bracketed_clean.
Qed.

Lemma parse_response_improvements (response : option (str)) (q : str) :
  snd (_parse_response response q) <> [].
Proof.
  unfold _parse_response, parse_body. destruct response as [r|]; [|done].
  destruct (parse_lines _ _) as [st|e]; [|done].
  by destruct (st_improvements st).
Qed.

Lemma simple_enhance_sound {W} (E : Env W) (q : str) :
  q <> [] -> is_bracketed q = false ->
  _simple_enhance_query E q <> [] /\ is_bracketed (_simple_enhance_query E q) = false.
Proof.
  intros Hne Hnb. unfold _simple_enhance_query.
  destruct (negb _); [|done]. split; [by destruct q|].
  unfold is_bracketed, endswith. rewrite rev_app_distr. simpl.
  apply andb_false_r.
Qed.

Lemma rewrite_query_cases {W} (E : Env W) (q : str) (w : W) :
  exists rq w', rewrite_query E q w = (Ok rq, w')
    /\ RewrittenQuery.original_query rq = q
    /\ ((exists response,
           RewrittenQuery.rewritten_query rq = fst (_parse_response response q)
           /\ RewrittenQuery.improvements rq = snd (_parse_response response q))
        \/ (RewrittenQuery.rewritten_query rq = _simple_enhance_query E q
            /\ RewrittenQuery.improvements rq
               = [py "Added basic Islamic context (fallback)"])).
Proof.
  unfold rewrite_query, FanarService.simple_chat, try_except, bind, ret, raise.
  destruct (chat_completions_create E _ _ w) as [[r|e] w1].
  - eexists _, _. split; [done|]. split; [done|]. left. by exists r.
  - eexists _, _. split; [done|]. split; [done|]. by right.
Qed.

(** C10.  Whatever the chat backend does, the rewriter returns a
    RewrittenQuery carrying the input as [original_query] and a non-empty
    list of improvements. *)
Theorem rewrite_query_never_raises {W} (E : Env W) (original_query : str) (w : W) :
  exists rq w',
    rewrite_query E original_query w = (Ok rq, w')
    /\ RewrittenQuery.original_query rq = original_query
    /\ RewrittenQuery.improvements rq <> [].
Proof.
  destruct (rewrite_query_cases E original_query w)
    as (rq & w' & H & Ho & [(r & _ & Hi)|[_ Hi]]);
    exists rq, w'; (split; [done|]); (split; [done|]); rewrite Hi.
  - apply parse_response_improvements.
  - done.
Qed.

(** ** Binary64 subtraction *)

Section Binary64.
Local Open Scope Z_scope.

Lemma scaled_pos (num den : positive) (z : Z) :
  0 < fst (Float.scaled num den z) /\ 0 < snd (Float.scaled num den z).
Proof.
  unfold Float.scaled. destruct (Z.leb_spec 0 z); cbn [fst snd].
  - split; [lia|]. apply Z.mul_pos_pos; [lia|]. apply Z.pow_pos_nonneg; lia.
  - split; [|lia]. apply Z.mul_pos_pos; [lia|]. apply Z.pow_pos_nonneg; lia.
Qed.

Lemma ge_pow2_mono (num den : positive) (z z' : Z) :
  z' <= z -> ge_pow2 num den z -> ge_pow2 num den z'.
Proof.
  unfold ge_pow2, Float.scaled. intros Hz.
  destruct (Z.leb_spec 0 z), (Z.leb_spec 0 z'); cbn [fst snd]; intros Hge.
  - assert (2 ^ z' <= 2 ^ z) by (apply Z.pow_le_mono_r; lia). nia.
  - assert (0 < 2 ^ z) by (apply Z.pow_pos_nonneg; lia).
    assert (0 < 2 ^ (- z')) by (apply Z.pow_pos_nonneg; lia). nia.
  - lia.
  - assert (2 ^ (- z) <= 2 ^ (- z')) by (apply Z.pow_le_mono_r; lia). nia.
Qed.

Lemma ge_pow2_log2 (num den : positive) :
  ge_pow2 num den (Z.log2 (Zpos num) - Z.log2 (Zpos den) - 1).
Proof.
  unfold ge_pow2, Float.scaled.
  pose proof (Z.log2_spec (Zpos num) ltac:(lia)) as [Hn _].
  pose proof (Z.log2_spec (Zpos den) ltac:(lia)) as [_ Hd].
  pose proof (Z.log2_nonneg (Zpos num)) as Hln.
  pose proof (Z.log2_nonneg (Zpos den)) as Hld.
  set (ln := Z.log2 (Zpos num)) in *. set (ld := Z.log2 (Zpos den)) in *.
  destruct (Z.leb_spec 0 (ln - ld - 1)); cbn [fst snd].
  - assert (2 ^ ln = 2 ^ (ln - ld - 1) * 2 ^ Z.succ ld) as E.
    { rewrite <- Z.pow_add_r by lia. f_equal. lia. }
    assert (0 < 2 ^ (ln - ld - 1)) by (apply Z.pow_pos_nonneg; lia). nia.
  - assert (2 ^ Z.succ ld = 2 ^ ln * 2 ^ (- (ln - ld - 1))) as E.
    { rewrite <- Z.pow_add_r by lia. f_equal. lia. }
    assert (0 < 2 ^ (- (ln - ld - 1))) by (apply Z.pow_pos_nonneg; lia). nia.
Qed.

Lemma ge_pow2_ilog2 (num den : positive) : ge_pow2 num den (Float.ilog2 num den).
Proof.
  unfold Float.ilog2.
  set (k := Z.log2 (Zpos num) - Z.log2 (Zpos den)).
  destruct (Float.scaled num den k) as [n d] eqn:E.
  destruct (Z.leb_spec d n).
  - unfold ge_pow2. by rewrite E.
  - apply ge_pow2_log2.
Qed.

Lemma nearest_even_lower (n d : Z) : 0 < d -> 0 <= n -> n / d <= Float.nearest_even n d.
Proof.
  intros Hd Hn. unfold Float.nearest_even.
  destruct (2 * (n mod d) ?= d); [destruct (Z.even (n / d))| |]; lia.
Qed.

Lemma round_pos_exp (num den : positive) : Float.emin <= snd (Float.round_pos num den).
Proof.
  unfold Float.round_pos. destruct (Float.scaled num den _). cbn [snd]. lia.
Qed.

Lemma round_pos_nonneg (num den : positive) : 0 <= fst (Float.round_pos num den).
Proof.
  unfold Float.round_pos.
  set (qe := Z.max _ _).
  pose proof (scaled_pos num den qe) as [Hn Hd].
  destruct (Float.scaled num den qe) as [n d]. cbn [fst snd] in *.
  etrans; [|apply nearest_even_lower; lia]. apply Z.div_pos; lia.
Qed.

Lemma round_pos_pos (num den : positive) :
  ge_pow2 num den Float.emin -> 1 <= fst (Float.round_pos num den).
Proof.
  intros Hgrid. unfold Float.round_pos.
  set (qe := Z.max _ _).
  assert (ge_pow2 num den qe) as Hge.
  { destruct (Z.max_spec (Float.ilog2 num den - (Float.prec - 1)) Float.emin) as [[_ E]|[_ E]];
      fold qe in E; rewrite E; [done|].
    eapply ge_pow2_mono; [|apply ge_pow2_ilog2]. unfold Float.prec. lia. }
  pose proof (scaled_pos num den qe) as [Hn Hd]. unfold ge_pow2 in Hge.
  destruct (Float.scaled num den qe) as [n d]. cbn [fst snd] in *.
  etrans; [|apply nearest_even_lower; lia].
  apply Z.div_le_lower_bound; lia.
Qed.

Local Open Scope Q_scope.

Lemma value_pos (m qe : Z) : (1 <= m)%Z -> 0 < Float.value m qe.
Proof.
  intros Hm. unfold Float.value. rewrite Qred_correct.
  apply Qmult_lt_0_compat.
  - change 0 with (inject_Z 0). rewrite <- Zlt_Qlt. lia.
  - by apply Qpower_0_lt.
Qed.

Lemma value_nonneg (m qe : Z) : (0 <= m)%Z -> 0 <= Float.value m qe.
Proof.
  intros Hm. unfold Float.value. rewrite Qred_correct.
  apply Qmult_le_0_compat.
  - change 0 with (inject_Z 0). rewrite <- Zle_Qle. lia.
  - by apply Qpower_0_le.
Qed.

Lemma value_on_grid (m qe : Z) : (Float.emin <= qe)%Z -> on_grid (Float.value m qe).
Proof.
  intros Hqe. exists (m * 2 ^ (qe - Float.emin))%Z.
  unfold Float.value.
  assert (inject_Z (2 ^ (- Float.emin)) == 2 ^ (- Float.emin)) as ->
    by (apply (Zpower_Qpower 2); unfold Float.emin; lia).
  assert (inject_Z (m * 2 ^ (qe - Float.emin))
          == inject_Z m * 2 ^ (qe - Float.emin)) as ->.
  { rewrite inject_Z_mult. apply Qmult_comp; [reflexivity|].
    apply (Zpower_Qpower 2). lia. }
  rewrite Qred_correct, <- Qmult_assoc. apply Qmult_comp; [reflexivity|].
  rewrite <- Qpower_plus by discriminate. reflexivity.
Qed.

Lemma on_grid_opp (q : Q) : on_grid q -> on_grid (- q).
Proof.
  intros [k Hk]. exists (- k)%Z. rewrite inject_Z_opp, <- Hk. ring.
Qed.

Lemma on_grid_sub (a b : Q) : on_grid a -> on_grid b -> on_grid (a - b).
Proof.
  intros [ka Ha] [kb Hb]. exists (ka - kb)%Z.
  unfold Zminus. rewrite inject_Z_plus, inject_Z_opp, <- Ha, <- Hb. ring.
Qed.

Lemma binary64_on_grid (q : Q) : Float.is_binary64 q = true -> on_grid q.
Proof.
  unfold Float.is_binary64, Float.round. destruct q as [n d]. cbn [Qnum Qden].
  destruct n as [|num|num].
  - intros _. exists 0%Z. reflexivity.
  - pose proof (round_pos_exp num d) as He.
    destruct (Float.round_pos num d) as [m qe]. cbn [snd] in He.
    destruct (Float.overflows m qe); [done|].
    intros Heq%Qeq_bool_eq. destruct (value_on_grid m qe He) as [k Hk].
    exists k. by rewrite <- Heq.
  - pose proof (round_pos_exp num d) as He.
    destruct (Float.round_pos num d) as [m qe]. cbn [snd] in He.
    destruct (Float.overflows m qe); [done|].
    intros Heq%Qeq_bool_eq.
    destruct (on_grid_opp _ (value_on_grid m qe He)) as [k Hk].
    exists k. by rewrite <- Heq.
Qed.

Lemma on_grid_ge (num den : positive) :
  on_grid (Zpos num # den) -> ge_pow2 num den Float.emin.
Proof.
  intros [k Hk]. unfold ge_pow2, Float.scaled, Float.emin in *.
  change (0 <=? -1074)%Z with false. cbn [fst snd].
  unfold Qeq in Hk. cbn [Qnum Qden Qmult inject_Z] in Hk.
  rewrite Pos.mul_1_r in Hk.
  assert (0 < 2 ^ (- (-1074)))%Z as HP by (apply Z.pow_pos_nonneg; lia).
  revert Hk HP. generalize (2 ^ (- (-1074)))%Z. intros P Hk HP.
  assert (0 < k)%Z by nia. nia.
Qed.

Lemma round_positive (q : Q) : on_grid q -> Float.positive (Float.round q) <-> 0 < q.
Proof.
  intros Hgrid. unfold Float.round. destruct q as [n d]. cbn [Qnum Qden].
  destruct n as [|num|num].
  - cbn [Float.positive]. split; intros H; exfalso; revert H; unfold Qlt; cbn; lia.
  - pose proof (round_pos_pos num d (on_grid_ge _ _ Hgrid)) as Hm.
    destruct (Float.round_pos num d) as [m qe]. cbn [fst] in Hm.
    split; [intros _; unfold Qlt; cbn; lia|intros _].
    destruct (Float.overflows m qe); cbn [Float.positive]; [done|].
    by apply value_pos.
  - pose proof (round_pos_nonneg num d) as Hm.
    destruct (Float.round_pos num d) as [m qe]. cbn [fst] in Hm.
    split; [|intros H; exfalso; revert H; unfold Qlt; cbn; lia].
    destruct (Float.overflows m qe); cbn [Float.positive]; [done|].
    intros H. exfalso. pose proof (value_nonneg m qe Hm) as Hv.
    apply (Qlt_not_le _ _ H). apply (Qopp_le_compat 0) in Hv. exact Hv.
Qed.

Lemma sub_positive (a b : Q) :
  Float.is_binary64 a = true -> Float.is_binary64 b = true ->
  Float.positive (Float.sub a b) <-> b < a.
Proof.
  intros Ha%binary64_on_grid Hb%binary64_on_grid. unfold Float.sub.
  rewrite (round_positive _ (on_grid_sub _ _ Ha Hb)).
  rewrite (Qlt_minus_iff b a). reflexivity.
Qed.

Lemma sub_same (a : Q) : Float.sub a a = Float.Finite 0.
Proof.
  unfold Float.sub, Float.round.
  assert (Qnum (a - a) = 0%Z) as ->; [|done].
  destruct a as [n d]. cbn. lia.
Qed.
(** The difference is rounded: for the binary64 values nearest to 0.7 and
    0.1 it is not the exact difference. *)
Lemma sub_rounds :
  Float.is_binary64 (3152519739159347 # 4503599627370496) = true
  /\ Float.is_binary64 (3602879701896397 # 36028797018963968) = true
  /\ Float.sub (3152519739159347 # 4503599627370496)
       (3602879701896397 # 36028797018963968)
     = Float.Finite (5404319552844595 # 9007199254740992)
  /\ ~ (3152519739159347 # 4503599627370496)
        - (3602879701896397 # 36028797018963968)
      == 5404319552844595 # 9007199254740992.
Proof. repeat split; vm_compute; congruence. Qed.

End Binary64.

(** ** The planner and the coordinator *)

Lemma returns_ret {W A} (a : A) : returns (ret (W := W) a).
Proof. intros w. by exists a, w. Qed.

Lemma returns_bind {W A B} (m : M W A) (k : A -> M W B) :
  returns m -> (forall a, returns (k a)) -> returns (bind m k).
Proof.
  intros Hm Hk w. unfold bind. destruct (Hm w) as (a & w1 & ->). apply Hk.
Qed.

(** A [try] whose handler returns does not raise. *)
Lemma returns_try {W A} (m : M W A) (h : str -> M W A) :
  (forall e, returns (h e)) -> returns (try_except m h).
Proof.
  intros Hh w. unfold try_except. destruct (m w) as [[a|e] w1]; [eauto|].
  apply Hh.
Qed.

Create HintDb returns.
#[local] Hint Resolve returns_ret : returns.

Ltac caught := apply returns_try; intros ?; auto with returns.

Section NoStageRaises.
Context {W : Type} (E : Env W).

Lemma rewrite_query_returns (q : str) : returns (rewrite_query E q).
Proof. caught. Qed.

Lemma get_tool_invocations_returns (q : str) (mode : bool) :
  returns (_get_tool_invocations E q mode).
Proof. caught. Qed.

Lemma execute_rag_returns (q : str) : returns (_execute_rag E q).
Proof. caught. Qed.

Lemma execute_web_search_returns (q : str) :
  returns (_execute_web_search E q).
Proof. caught. Qed.

Lemma run_invocations_returns invocations rag web results :
  returns (run_invocations E invocations rag web results).
Proof.
  revert rag web results.
  induction invocations as [|inv rest IH]; intros rag web results;
    cbn [run_invocations]; [apply returns_ret|].
  destruct (decide _); [|destruct (decide _)]; [| |apply IH].
  - apply returns_bind; [apply execute_rag_returns|]. intros r. apply IH.
  - apply returns_bind; [apply execute_web_search_returns|]. intros r.
    apply IH.
Qed.

Lemma tool_process_query_returns self_mode q mode :
  returns (ToolUsageAgent.process_query E self_mode q mode).
Proof. caught. Qed.

Lemma synthesize_answer_returns self_mode q results mode :
  returns (synthesize_answer E self_mode q results mode).
Proof. caught. Qed.

Lemma now_returns : returns (now E).
Proof. intros w. unfold now. destruct (time_time E w). eauto. Qed.

(** No exception leaves the coordinator, whatever the backends do. *)
Lemma process_query_returns self request mode :
  returns (Orchestrator.process_query E self request mode).
Proof.
  apply returns_bind; [apply now_returns|]. intros start_time.
  apply returns_try. intros e.
  apply returns_bind; [apply now_returns|]. intros end_time.
  apply returns_ret.
Qed.

End NoStageRaises.

Lemma findall_no_match (opening closing s : str) :
  opening <> [] ->
  (forall pre body post, s <> pre ++ opening ++ body ++ closing ++ post) ->
  findall opening closing s = [].
Proof.
  intros Hop Hno. pose proof (findall_groups opening closing s Hop) as Hg.
  inversion Hg as [|pre body post gs _ _ _ E]; [done|].
  by destruct (Hno pre body post).
Qed.

Lemma simple_chat_down {W} (E : Env W) messages max_tokens w :
  chat_down E ->
  exists e w', FanarService.simple_chat E messages max_tokens w = (Raise e, w').
Proof.
  intros [H _]. unfold FanarService.simple_chat, try_except, raise.
  destruct (H messages (or_default max_tokens settings.max_tokens_default) w)
    as (e & w' & ->). eauto.
Qed.

Lemma thinking_chat_down {W} (E : Env W) user_input max_tokens w :
  chat_down E ->
  exists e w', FanarService.thinking_chat E user_input max_tokens w = (Raise e, w').
Proof.
  intros [_ H]. unfold FanarService.thinking_chat, try_except, bind, raise.
  destruct (H [Message.mk (py "thinking_user") user_input]
              (or_default max_tokens settings.max_tokens_thinking) w)
    as (e & w' & ->). eauto.
Qed.

Lemma get_tool_invocations_total {W} (E : Env W) query thinking_mode w :
  exists invocations w',
    _get_tool_invocations E query thinking_mode w = (Ok invocations, w').
Proof.
  unfold _get_tool_invocations, try_except, bind, ret.
  destruct thinking_mode.
  - destruct (FanarService.thinking_chat E _ _ w) as [[r|e] w']; eauto.
  - destruct (FanarService.simple_chat E _ _ w) as [[r|e] w']; eauto.
Qed.

Lemma get_tool_invocations_caught {W} (E : Env W) query thinking_mode w e w' :
  planner_call E query thinking_mode w = (Raise e, w') ->
  _get_tool_invocations E query thinking_mode w = (Ok [], w').
Proof.
  unfold planner_call, _get_tool_invocations, try_except, bind, ret.
  by destruct thinking_mode; intros ->.
Qed.

Lemma planner_call_down {W} (E : Env W) query thinking_mode w :
  chat_down E ->
  exists e w', planner_call E query thinking_mode w = (Raise e, w').
Proof.
  intros H. unfold planner_call. destruct thinking_mode.
  - by apply thinking_chat_down.
  - by apply simple_chat_down.
Qed.

Lemma replace_no_references (text : str) :
  Orchestrator._replace_reference_tags text no_references = text.
Proof. reflexivity. Qed.

(** What the coordinator returns once the planner has produced no
    invocation. *)
Lemma process_query_no_invocations {W} (E : Env W) (self : Orchestrator.t)
  (request : QueryRequest.t) (use_thinking_mode : option bool)
  (w w1 w2 w3 : W) (t0 : Q) (rq : RewrittenQuery.t) :
  time_time E w = (t0, w1) ->
  QueryRewriterAgent.rewrite_query E (QueryRequest.query request) w1
  = (Ok rq, w2) ->
  _get_tool_invocations E (RewrittenQuery.rewritten_query rq)
    (default (Orchestrator.tool_usage_agent_mode self) use_thinking_mode) w2
  = (Ok [], w3) ->
  Orchestrator.process_query E self request use_thinking_mode w
  = (Ok (SystemResponse.mk
           (FinalAnswer.mk (apology (py "No tool invocations generated"))
              0%Q (py "Error fallback") no_references)
           None None (Some rq) (Float.sub (fst (time_time E w3)) t0)),
     snd (time_time E w3)).
Proof.
  intros Ht Hrw Hget.
  unfold Orchestrator.process_query, Orchestrator.now, bind at 1.
  rewrite Ht. unfold try_except, bind at 1. rewrite Hrw.
  unfold bind at 1, ToolUsageAgent.process_query, try_except, bind at 1.
  rewrite Hget. unfold ret at 1. cbn [success error _create_error_result].
  unfold bind at 1, ret at 1, bind at 1.
  destruct (time_time E w3) as [t1 w4]. unfold ret.
  cbn [fst snd default rag_result web_result _create_fallback_answer
         FinalAnswer.answer FinalAnswer.references FinalAnswer.confidence
         FinalAnswer.methodology].
  fold no_references. by rewrite replace_no_references.
Qed.

(** C6.  A planner output without a complete tag of either kind gives the
    empty invocation list; the planner never raises and a backend error in
    its chat call gives the empty list; and once the planner has returned
    the empty list the coordinator answers with the fallback FinalAnswer. *)
Theorem empty_plan_yields_fallback {W} (E : Env W) :
  (forall response,
      (forall pre body post,
          response <> pre ++ rag_open ++ body ++ rag_close ++ post) ->
      (forall pre body post,
          response <> pre ++ search_open ++ body ++ search_close ++ post) ->
      _parse_tool_invocations (Some response) = [])
  /\ (forall query thinking_mode w,
        (exists invocations w',
            _get_tool_invocations E query thinking_mode w
            = (Ok invocations, w'))
        /\ (forall e w',
              planner_call E query thinking_mode w = (Raise e, w') ->
              _get_tool_invocations E query thinking_mode w = (Ok [], w')))
  /\ (forall self request use_thinking_mode w w1 w2 w3 t0 rq,
        time_time E w = (t0, w1) ->
        QueryRewriterAgent.rewrite_query E (QueryRequest.query request) w1
        = (Ok rq, w2) ->
        _get_tool_invocations E (RewrittenQuery.rewritten_query rq)
          (default (Orchestrator.tool_usage_agent_mode self) use_thinking_mode)
          w2 = (Ok [], w3) ->
        exists response w',
          Orchestrator.process_query E self request use_thinking_mode w
          = (Ok response, w')
          /\ SystemResponse.final_answer response
             = FinalAnswer.mk (apology (py "No tool invocations generated"))
                 0%Q (py "Error fallback") no_references).
Proof.
  split; [|split].
  - intros response Hrag Hsearch. unfold _parse_tool_invocations.
    by rewrite !findall_no_match.
  - intros query thinking_mode w. split.
    + apply get_tool_invocations_total.
    + apply get_tool_invocations_caught.
  - intros self request utm w w1 w2 w3 t0 rq Ht Hrw Hget.
    eexists _, _. split; [by eapply process_query_no_invocations|done].
Qed.

(** C8, as amended.  When the chat backend raises on every call the
    coordinator returns a SystemResponse whose FinalAnswer has confidence 0,
    methodology [Error fallback] and empty reference lists, and whose
    processing time is the binary64 difference of the clock reading at exit
    and the reading at entry, the exact difference rounded to the nearest
    value: for readings that are binary64 values it is positive exactly
    when the reading at exit is the greater one. *)
Theorem chat_down_yields_fallback {W} (E : Env W) (self : Orchestrator.t)
  (request : QueryRequest.t) (use_thinking_mode : option bool) (w : W) :
  chat_down E ->
  exists response w' t_start t_end,
    Orchestrator.process_query E self request use_thinking_mode w
    = (Ok response, w')
    /\ SystemResponse.final_answer response
       = FinalAnswer.mk (apology (py "No tool invocations generated"))
           0%Q (py "Error fallback") no_references
    /\ t_start = fst (time_time E w)
    /\ (exists w_end, (t_end, w') = time_time E w_end)
    /\ SystemResponse.processing_time response = Float.sub t_end t_start
    /\ (Float.is_binary64 t_start = true ->
        Float.is_binary64 t_end = true ->
        (Float.positive (SystemResponse.processing_time response)
         <-> (t_start < t_end)%Q)).
Proof.
  intros Hdown. destruct (time_time E w) as [t0 w1] eqn:Ht.
  destruct (rewrite_query_cases E (QueryRequest.query request) w1)
    as (rq & w2 & Hrw & _).
  destruct (planner_call_down E (RewrittenQuery.rewritten_query rq)
              (default (Orchestrator.tool_usage_agent_mode self)
                 use_thinking_mode) w2 Hdown) as (e & w3 & Hcall).
  apply get_tool_invocations_caught in Hcall.
  rewrite (process_query_no_invocations E self request use_thinking_mode
             w w1 w2 w3 t0 rq Ht Hrw Hcall).
  eexists _, _, t0, (fst (time_time E w3)).
  split; [done|]. split; [done|]. split; [done|].
  split; [exists w3; by destruct (time_time E w3)|]. split; [done|].
  intros Hstart Hend. cbn [SystemResponse.processing_time].
  by apply sub_positive.
Qed.

Lemma no_match_by_scan (opening closing s : str) :
  contains opening s = false ->
  forall pre body post, s <> pre ++ opening ++ body ++ closing ++ post.
Proof.
  intros Hc pre body post E.
  assert (H : contains opening s = true).
  { apply contains_iff. by exists pre, (body ++ closing ++ post). }
  congruence.
Qed.

Lemma empty_plan_witness :
  _parse_tool_invocations (Some (py "No tool is needed.")) = []
  /\ exists response w',
       Orchestrator.process_query env_down (Orchestrator.mk false false)
         request_fast None 0 = (Ok response, w')
       /\ SystemResponse.final_answer response
          = FinalAnswer.mk (apology (py "No tool invocations generated"))
              0%Q (py "Error fallback") no_references.
Proof.
  split.
  - apply (empty_plan_yields_fallback env_down);
      apply no_match_by_scan; vm_compute; reflexivity.
  - eapply (empty_plan_yields_fallback env_down); reflexivity.
Defined.

(** C8 fails as stated: two equal clock readings give a processing time
    that is not positive. *)
Lemma processing_time_counterexample :
  chat_down env_frozen_clock
  /\ Float.is_binary64 (fst (time_time env_frozen_clock 0)) = true
  /\ exists response w',
       Orchestrator.process_query env_frozen_clock
         (Orchestrator.mk false false) request_fast None 0
       = (Ok response, w')
       /\ SystemResponse.processing_time response = Float.Finite 0
       /\ ~ Float.positive (SystemResponse.processing_time response).
Proof.
  split; [split; intros; eexists _, _; reflexivity|].
  split; [vm_compute; reflexivity|].
  eexists _, _. split; [reflexivity|]. split; [vm_compute; reflexivity|].
  vm_compute. intros H. discriminate H.
Qed.

Lemma chat_down_witness :
  exists response w',
    Orchestrator.process_query env_down (Orchestrator.mk false false)
      request_fast None 0 = (Ok response, w')
    /\ SystemResponse.final_answer response
       = FinalAnswer.mk (apology (py "No tool invocations generated"))
           0%Q (py "Error fallback") no_references
    /\ SystemResponse.processing_time response = Float.Finite 1
    /\ Float.positive (SystemResponse.processing_time response).
Proof.
  destruct (chat_down_yields_fallback env_down (Orchestrator.mk false false)
              request_fast None 0)
    as (response & w' & t_start & t_end & Hrun & Hanswer & Hstart
        & (w_end & Hend) & Htime & Hsign).
  { split; intros; eexists _, _; reflexivity. }
  exists response, w'. split; [exact Hrun|]. split; [exact Hanswer|].
  assert (Hw : w' = 2%nat).
  { vm_compute in Hrun. by injection Hrun as _ <-. }
  assert (Ht : t_end = 1%Q /\ t_start = 0%Q).
  { rewrite Hw in Hend. cbn in Hend. injection Hend as Ht Hw2.
    rewrite <- Hw2 in Ht. split; [exact Ht|exact Hstart]. }
  destruct Ht as [-> ->]. split; [by rewrite Htime|].
  apply Hsign; vm_compute; reflexivity.
Defined.

(** ** Reference numbering in the synthesis prompt *)

Lemma nodup_same (x : str) (su : list str) :
  NoDup su -> (forall y, y ∈ su <-> y ∈ [x; x]) -> su = [x].
Proof.
  intros Hnd Hel.
  assert (Hall : forall y, y ∈ su -> y = x).
  { intros y Hy%Hel. apply elem_of_cons in Hy as [->|Hy]; [done|].
    by apply list_elem_of_singleton in Hy. }
  assert (Hx : x ∈ su) by (apply Hel; left).
  destruct su as [|a su]; [by apply elem_of_nil in Hx|].
  assert (a = x) as -> by (apply Hall; left).
  destruct su as [|b su]; [done|].
  assert (b = x) as -> by (apply Hall; right; left).
  apply NoDup_cons in Hnd as [Hnd _]. destruct Hnd. left.
Qed.

(** C1, evaluated where it fails.  Retrieval returns two passages of one
    source: the prompt numbers them 1 and 2, the RAG origin list has the
    single entry [islamqa], and the marker [<RAG id=2>] of an answer is not
    substituted. *)
Theorem rag_origins_drift_from_prompt {W} (E : Env W) (w w' : W) :
  (forall l, NoDup (list_set E l) /\ forall x, x ∈ list_set E l <-> x ∈ l) ->
  requests_post_rag E fasting_query settings.max_tokens_rag w
  = (Ok same_source_reply, w') ->
  exists result,
    FanarService.islamic_rag E fasting_query w = (Ok result, w')
    /\ let prepared :=
         _prepare_synthesis_input_from_tool_results (py "What breaks a fast?")
           [mk_tool_result RAG fasting_query (RAG_output result)] in
       tag_lines (py "<RAG id=") (fst prepared)
       = [py "<RAG id=1>islamqa: Eating breaks the fast...</RAG>";
          py "<RAG id=2>islamqa: Drinking breaks the fast...</RAG>"]
       /\ snd prepared !! RAG = Some [py "islamqa"]
       /\ Orchestrator._replace_reference_tags
            (py "See <RAG id=1> and <RAG id=2>.") (snd prepared)
          = py "See [islamqa] and <RAG id=2>.".
Proof.
  intros Hset Hpost.
  set (refs := FanarService._parse_enhanced_references E (snd same_source_reply)).
  assert (Hsrc : List.map ReferenceMaterial.source refs
                 = [py "islamqa"; py "islamqa"])
    by (subst refs; vm_compute; reflexivity).
  assert (Hsu : list_set E (List.map ReferenceMaterial.source refs)
                = [py "islamqa"]).
  { rewrite Hsrc. destruct (Hset [py "islamqa"; py "islamqa"]) as [Hnd Hel].
    exact (nodup_same _ _ Hnd Hel). }
  exists (RAGResult.mk (py "X") refs
            (list_set E (List.map ReferenceMaterial.source refs)) 0%Q).
  split.
  - unfold FanarService.islamic_rag, try_except, bind. by rewrite Hpost.
  - rewrite Hsu. subst refs. vm_compute. done.
Qed.

Lemma rag_origins_drift_witness :
  exists result,
    FanarService.islamic_rag env_same_source fasting_query 0 = (Ok result, 0)
    /\ let prepared :=
         _prepare_synthesis_input_from_tool_results (py "What breaks a fast?")
           [mk_tool_result RAG fasting_query (RAG_output result)] in
       tag_lines (py "<RAG id=") (fst prepared)
       = [py "<RAG id=1>islamqa: Eating breaks the fast...</RAG>";
          py "<RAG id=2>islamqa: Drinking breaks the fast...</RAG>"]
       /\ snd prepared !! RAG = Some [py "islamqa"]
       /\ Orchestrator._replace_reference_tags
            (py "See <RAG id=1> and <RAG id=2>.") (snd prepared)
          = py "See [islamqa] and <RAG id=2>.".
Proof.
  apply (rag_origins_drift_from_prompt env_same_source 0 0).
  - intros l. split; [apply NoDup_remove_dups|].
    intros x. apply elem_of_remove_dups.
  - reflexivity.
Defined.

(** C2, evaluated where it fails.  Two records with one reference each:
    both references get the id 1, for RAG and for Internet alike, while the
    InternetSearch origin list has two entries. *)
Theorem reference_ids_restart_per_record :
  tag_lines (py "<RAG id=")
    (fst (_prepare_synthesis_input_from_tool_results (py "Q") two_rag_records))
  = [py "<RAG id=1>islamqa: Eating breaks the fast...</RAG>";
     py "<RAG id=1>sunnah: Intention is required...</RAG>"]
  /\ tag_lines (py "<Internet id=")
       (fst (_prepare_synthesis_input_from_tool_results (py "Q") two_web_records))
     = [py "<Internet id=1>Fatwa (https://a.example): Ruling text...</Internet>";
        py "<Internet id=1>Fatwa (https://b.example): Ruling text...</Internet>"]
  /\ snd (_prepare_synthesis_input_from_tool_results (py "Q") two_web_records)
       !! InternetSearch
     = Some [py "https://a.example"; py "https://b.example"].
Proof. repeat split; vm_compute; reflexivity. Qed.

(** * Further properties *)

Import Behaviour Runs.

(** ** Citation markers and their origins *)

Lemma py_inj (s1 s2 : string) : py s1 = py s2 -> s1 = s2.
Proof.
  unfold py. intros H.
  rewrite <- (string_of_list_ascii_of_string s1),
    <- (string_of_list_ascii_of_string s2). f_equal.
  revert H. generalize (list_ascii_of_string s1) (list_ascii_of_string s2).
  induction l as [|a l IH]; intros [|b l']; simpl; try done.
  intros [= Hab Hl]. f_equal; [|by apply IH].
  by rewrite <- (ascii_N_embedding a), <- (ascii_N_embedding b), Hab.
Qed.

(** Two numbers with the same decimal rendering are equal. *)
Lemma str_of_nat_inj (i j : nat) : str_of_nat i = str_of_nat j -> i = j.
Proof.
  unfold str_of_nat. intros H%py_inj.
  assert (Hu : Nat.to_uint i = Nat.to_uint j).
  { apply (f_equal NilEmpty.uint_of_string) in H.
    rewrite !NilEmpty.usu in H. by injection H. }
  by rewrite <- (Unsigned.of_to i), <- (Unsigned.of_to j), Hu.
Qed.

Lemma open_RAG_inj (i j : nat) : open_RAG i = open_RAG j -> i = j.
Proof.
  unfold open_RAG. intros H%app_inv_head%app_inv_tail. by apply str_of_nat_inj.
Qed.

Lemma open_Internet_inj (i j : nat) :
  open_Internet i = open_Internet j -> i = j.
Proof.
  unfold open_Internet. intros H%app_inv_head%app_inv_tail.
  by apply str_of_nat_inj.
Qed.

Lemma replace_absent (a : N) (o new s : str) :
  Forall (fun c => c <> a) s -> replace (a :: o) new s = s.
Proof.
  intros H. rewrite <- (app_nil_r s) at 1.
  rewrite replace_skip_all by done. by rewrite replace_nil, app_nil_r.
Qed.

Lemma free_of_Forall (c : N) (s : str) :
  free_of c s = true -> Forall (fun x => x <> c) s.
Proof.
  unfold free_of. rewrite forallb_forall, Forall_forall.
  intros H x Hx%list_elem_of_In. apply H in Hx.
  by apply negb_true_iff, N.eqb_neq in Hx.
Qed.

Lemma replace_loop_absent (open_tag : nat -> str) (close_tag : str) (i : nat)
  (refs : list str) (text : str) :
  (forall j, tag_shaped (open_tag j)) -> tag_shaped close_tag ->
  free_of lt_sign text = true ->
  replace_loop open_tag close_tag i refs text = text.
Proof.
  intros Ho Hc Hfree%free_of_Forall. revert i.
  induction refs as [|ref refs IH]; intros i; [done|].
  cbn [replace_loop]. destruct (Ho i) as (b & -> & _).
  rewrite replace_absent by done. destruct Hc as (bc & -> & _).
  rewrite replace_absent by done. specialize (IH (S i)).
  destruct (Ho (S i)) as (b' & E & _). done.
Qed.

(** [_replace_reference_tags]: an answer that contains no [<] comes back
    unchanged, whatever the reference map holds. *)
Theorem answer_without_markers_unchanged (text : str)
  (references : gmap (list N) (list (list N))) :
  free_of lt_sign text = true ->
  _replace_reference_tags text references = text.
Proof.
  intros H. unfold _replace_reference_tags.
  rewrite (replace_loop_absent open_RAG close_RAG)
    by (done || apply open_RAG_shaped || apply close_RAG_shaped).
  apply replace_loop_absent;
    [apply open_Internet_shaped|apply close_Internet_shaped|done].
Qed.

Lemma answer_without_markers_witness :
  _replace_reference_tags (py "Fasting is a pillar [1].") refs_two
  = py "Fasting is a pillar [1].".
Proof.
  apply (answer_without_markers_unchanged (py "Fasting is a pillar [1].")
           refs_two).
  vm_compute. reflexivity.
Defined.

Lemma loop_pieces_single_inert (open_tag : nat -> str) (close_tag : str)
  (i : nat) (refs : list str) (q : str) :
  inert open_tag close_tag i refs q ->
  loop_pieces open_tag close_tag i refs [q] = [q].
Proof. intros H. apply loop_pieces_inert. by constructor. Qed.

(** [_replace_reference_tags], for both kinds of marker and every position:
    on an answer in which every [<] opens a tag closed before the next [<],
    with origins that contain no [<], an opening marker whose id is a
    position of the origin list of its kind is replaced by the bracketed
    origin of that position, and no occurrence of the marker is left. *)
Theorem marker_gets_its_origin (text origin : str) (k : nat)
  (references : gmap (list N) (list (list N))) :
  well_tagged text = true ->
  origins_plain references = true ->
  let answer := _replace_reference_tags text references in
  (default [] (references !! RAG) !! k = Some origin ->
   contains (open_RAG (S k)) text = true ->
   contains (py "[" ++ origin ++ py "]") answer = true
   /\ contains (open_RAG (S k)) answer = false)
  /\ (default [] (references !! InternetSearch) !! k = Some origin ->
      contains (open_Internet (S k)) text = true ->
      contains (py "[" ++ origin ++ py "]") answer = true
      /\ contains (open_Internet (S k)) answer = false).
Proof.
  intros (ps & Hps & ->)%well_tagged_pieces Ho answer. subst answer.
  destruct (replace_tags_pieces references ps Ho Hps) as [-> Hps'].
  split.
  - intros Hk Hin. split.
    + apply contains_iff in Hin as (pre & post & E).
      apply tag_in_concat in E; [|apply open_RAG_shaped|done].
      apply list_elem_of_split in E as (ps1 & ps2 & ->).
      change (ps1 ++ open_RAG (S k) :: ps2)
        with (ps1 ++ [open_RAG (S k)] ++ ps2).
      rewrite !final_pieces_app, !concat_app. apply contains_iff.
      exists (concat (final_pieces references ps1)),
        (concat (final_pieces references ps2)).
      do 2 f_equal. unfold final_pieces.
      pose proof (loop_pieces_hit open_RAG close_RAG open_RAG_shaped
                    close_RAG_shaped 1 k _ origin Hk) as Hhit.
      change (1 + k) with (S k) in Hhit. rewrite Hhit.
      * rewrite loop_pieces_explode;
          [by rewrite concat_explode|apply open_Internet_shaped
          |apply close_Internet_shaped].
      * intros j Hj E%open_RAG_inj. lia.
      * intros E. by apply (open_RAG_ne_close (S k)).
    + apply not_true_is_false. intros (pre & post & E)%contains_iff.
      apply tag_in_concat in E; [|apply open_RAG_shaped|done].
      apply final_pieces_elem in E as [[c E]|(_ & [Hno _] & _)].
      * exact (tag_shaped_not_single _ _ (open_RAG_shaped (S k)) E).
      * apply (Hno (S k)); [|done]. apply lookup_lt_Some in Hk. lia.
  - intros Hk Hin. split.
    + apply contains_iff in Hin as (pre & post & E).
      apply tag_in_concat in E; [|apply open_Internet_shaped|done].
      apply list_elem_of_split in E as (ps1 & ps2 & ->).
      change (ps1 ++ open_Internet (S k) :: ps2)
        with (ps1 ++ [open_Internet (S k)] ++ ps2).
      rewrite !final_pieces_app, !concat_app. apply contains_iff.
      exists (concat (final_pieces references ps1)),
        (concat (final_pieces references ps2)).
      do 2 f_equal. unfold final_pieces.
      rewrite (loop_pieces_single_inert open_RAG close_RAG).
      * pose proof (loop_pieces_hit open_Internet close_Internet
                      open_Internet_shaped close_Internet_shaped 1 k _
                      origin Hk) as Hhit.
        change (1 + k) with (S k) in Hhit. rewrite Hhit.
        -- by rewrite concat_explode.
        -- intros j Hj E%open_Internet_inj. lia.
        -- intros E. by apply (open_Internet_ne_close (S k)).
      * split.
        -- intros j _ E. by apply (open_RAG_ne_open_Internet j (S k)).
        -- intros _ E. by apply (open_Internet_ne_close (S k)).
    + apply not_true_is_false. intros (pre & post & E)%contains_iff.
      apply tag_in_concat in E; [|apply open_Internet_shaped|done].
      apply final_pieces_elem in E as [[c E]|(_ & _ & [Hno _])].
      * exact (tag_shaped_not_single _ _ (open_Internet_shaped (S k)) E).
      * apply (Hno (S k)); [|done]. apply lookup_lt_Some in Hk. lia.
Qed.

Lemma replace_loop_past_tag (open_tag : nat -> str) (close_tag : str)
  (i : nat) (refs : list str) (t pre post : str) :
  (forall j, tag_shaped (open_tag j)) -> tag_shaped close_tag ->
  tag_shaped t ->
  (forall j, i <= j < i + length refs -> open_tag j <> t) ->
  close_tag <> t ->
  replace_loop open_tag close_tag i refs (pre ++ t ++ post)
  = replace_loop open_tag close_tag i refs pre ++ t
    ++ replace_loop open_tag close_tag i refs post.
Proof.
  intros Ho Hc Ht Hno Hnc. revert i pre post Hno.
  induction refs as [|ref refs IH]; intros i pre post Hno; [done|].
  cbn [replace_loop]. rewrite !replace_around_tag; try done.
  - apply IH. intros j Hj. apply Hno. simpl. lia.
  - apply Hno. simpl. lia.
Qed.

(** [_replace_reference_tags]: an opening marker whose id is 0, or is
    greater than the number of origins of its kind, is never substituted.
    It stays in place and the text before it and the text after it are
    substituted independently of each other. *)
Theorem marker_out_of_range_stays (pre post : str) (i : nat)
  (references : gmap (list N) (list (list N))) :
  (i = 0 \/ length (default [] (references !! RAG)) < i ->
   _replace_reference_tags (pre ++ open_RAG i ++ post) references
   = _replace_reference_tags pre references ++ open_RAG i
     ++ _replace_reference_tags post references)
  /\ (i = 0 \/ length (default [] (references !! InternetSearch)) < i ->
      _replace_reference_tags (pre ++ open_Internet i ++ post) references
      = _replace_reference_tags pre references ++ open_Internet i
        ++ _replace_reference_tags post references).
Proof.
  unfold _replace_reference_tags. split; intros Hi.
  - rewrite (replace_loop_past_tag open_RAG close_RAG);
      [|apply open_RAG_shaped|apply close_RAG_shaped|apply open_RAG_shaped
       | |intros E; by apply (open_RAG_ne_close i)].
    + apply replace_loop_past_tag;
        [apply open_Internet_shaped|apply close_Internet_shaped
        |apply open_RAG_shaped| |].
      * intros j _ E. by apply (open_RAG_ne_open_Internet i j).
      * intros E. by apply (open_RAG_ne_close i).
    + intros j Hj E%open_RAG_inj. lia.
  - rewrite (replace_loop_past_tag open_RAG close_RAG);
      [|apply open_RAG_shaped|apply close_RAG_shaped
       |apply open_Internet_shaped| |].
    + apply replace_loop_past_tag;
        [apply open_Internet_shaped|apply close_Internet_shaped
        |apply open_Internet_shaped| |].
      * intros j Hj E%open_Internet_inj. lia.
      * intros E. by apply (open_Internet_ne_close i).
    + intros j _. apply open_RAG_ne_open_Internet.
    + intros E. by apply (open_Internet_ne_close i).
Qed.

(** ** Origin lists of the synthesis input *)

Lemma prepare_step_sources (acc : prepare_state) (r : tool_result) :
  sources_RAG (prepare_step acc r) = sources_RAG acc ++ record_sources r
  /\ sources_InternetSearch (prepare_step acc r)
     = sources_InternetSearch acc ++ record_urls r.
Proof.
  unfold prepare_step, record_sources, record_urls.
  destruct (tr_result r) as [result|result]; destruct (decide _);
    cbn; rewrite ?app_nil_r; try done.
  destruct (WebSearchResult.results result); cbn; by rewrite ?app_nil_r.
Qed.

Lemma prepare_fold_sources (rs : list tool_result) (acc : prepare_state) :
  sources_RAG (fold_left prepare_step rs acc)
  = sources_RAG acc ++ flat_map record_sources rs
  /\ sources_InternetSearch (fold_left prepare_step rs acc)
     = sources_InternetSearch acc ++ flat_map record_urls rs.
Proof.
  revert acc. induction rs as [|r rs IH]; intros acc; simpl.
  - by rewrite !app_nil_r.
  - destruct (IH (prepare_step acc r)) as [-> ->].
    destruct (prepare_step_sources acc r) as [-> ->].
    by rewrite <- !app_assoc.
Qed.

Lemma prepare_origin_lists (query : str) (tool_results : list tool_result) :
  snd (_prepare_synthesis_input_from_tool_results query tool_results) !! RAG
  = Some (flat_map record_sources tool_results)
  /\ snd (_prepare_synthesis_input_from_tool_results query tool_results)
       !! InternetSearch
     = Some (flat_map record_urls tool_results).
Proof.
  unfold _prepare_synthesis_input_from_tool_results. cbn [snd].
  destruct (prepare_fold_sources tool_results (mk_prepare [] [] []))
    as [-> ->]. cbn [sources_RAG sources_InternetSearch app].
  split.
  - apply lookup_insert_eq.
  - rewrite lookup_insert_ne by done. apply lookup_singleton_eq.
Qed.

(** [_prepare_synthesis_input_from_tool_results]: the returned map always
    has both keys.  Its RAG list is the concatenation, in record order, of
    [sources_used] of the records labelled RAG that hold a retrieval result;
    its InternetSearch list is the urls of all hits of the records labelled
    InternetSearch that hold a web result, the empty string for a hit
    without url.  Records whose label and result disagree add nothing. *)
Theorem origin_lists_per_record (query : str) (tool_results : list tool_result) :
  snd (_prepare_synthesis_input_from_tool_results query tool_results) !! RAG
  = Some (flat_map record_sources tool_results)
  /\ snd (_prepare_synthesis_input_from_tool_results query tool_results)
       !! InternetSearch
     = Some (flat_map record_urls tool_results).
Proof. apply prepare_origin_lists. Qed.

Lemma contains_join (sep p : str) (parts : list str) :
  p ∈ parts -> contains p (join sep parts) = true.
Proof.
  intros Hp. apply contains_iff. induction parts as [|q parts IH].
  - by apply elem_of_nil in Hp.
  - apply elem_of_cons in Hp as [->|Hp].
    + destruct parts as [|q' parts].
      * exists [], []. simpl. by rewrite app_nil_r.
      * by exists [], (sep ++ join sep (q' :: parts)).
    + destruct (IH Hp) as (pre & post & E).
      destruct parts as [|q' parts]; [by apply elem_of_nil in Hp|].
      change (join sep (q :: q' :: parts))
        with (q ++ sep ++ join sep (q' :: parts)). rewrite E.
      exists (q ++ sep ++ pre), post. by rewrite <- !app_assoc.
Qed.

(** [_prepare_synthesis_input_from_tool_results] on a single web-search
    record: the numbering of the prompt and the origin list agree.  The
    line of hit number [i + 1] is in the prompt and position [i] of the
    InternetSearch list is the url of that hit. *)
Theorem web_record_numbering_agrees (query search_query content : str)
  (hits : list (gmap (list N) (list N))) (i : nat)
  (hit : gmap (list N) (list N)) :
  hits !! i = Some hit ->
  let prepared :=
    _prepare_synthesis_input_from_tool_results query
      [mk_tool_result InternetSearch search_query
         (Web_output (WebSearchResult.mk content hits search_query))] in
  contains (internet_line (S i) hit) (fst prepared) = true
  /\ default [] (snd prepared !! InternetSearch) !! i = Some (hit_url hit).
Proof.
  intros Hi prepared. subst prepared. split.
  - unfold _prepare_synthesis_input_from_tool_results. cbn [fst fold_left].
    apply contains_join. unfold prepare_step.
    cbn [tr_result tr_tool tr_query WebSearchResult.results
           WebSearchResult.content synthesis_parts].
    rewrite decide_True by done. destruct hits as [|h hits]; [done|].
    cbn [synthesis_parts]. rewrite !elem_of_app. right. right. left.
    apply list_elem_of_lookup. exists i.
    by rewrite list_lookup_imap, Hi.
  - destruct (prepare_origin_lists query
                [mk_tool_result InternetSearch search_query
                   (Web_output (WebSearchResult.mk content hits search_query))])
      as [_ ->].
    cbn. rewrite decide_True by done. rewrite app_nil_r.
    by rewrite list_lookup_fmap, Hi.
Qed.

(** ** The executor of the planned invocations *)

Section Executor.
Context {W : Type} (E : Env W).

Lemma execute_web_unavailable (q : str) (w : W) :
  tavily_client E = None -> _execute_web_search E q w = (Ok None, w).
Proof.
  intros H. unfold _execute_web_search, try_except, TavilyService.is_available.
  by rewrite H.
Qed.

Lemma execute_rag_down (q : str) (w : W) :
  retrieval_down E -> exists w', _execute_rag E q w = (Ok None, w').
Proof.
  intros H. unfold _execute_rag, FanarService.islamic_rag, try_except, bind.
  destruct (H q settings.max_tokens_rag w) as (e & w' & ->). by exists w'.
Qed.

Lemma run_invocations_follow invocations rag web results w :
  exists rag' web' new w',
    run_invocations E invocations rag web results w
    = (Ok (rag', web', results ++ new), w')
    /\ sublist (List.map record_label new)
         (List.map invocation_label invocations)
    /\ Forall kind_consistent new.
Proof.
  revert rag web results w.
  induction invocations as [|inv rest IH]; intros rag web results w.
  { exists rag, web, [], w. by rewrite app_nil_r. }
  cbn [run_invocations]. destruct (decide _) as [Hrag|_].
  - unfold bind.
    destruct (execute_rag_returns E (inv_query inv) w) as (r & w1 & ->).
    destruct r as [r|].
    + destruct (IH (Some r) web
                  (results ++
                   [mk_tool_result (py "RAG") (inv_query inv) (RAG_output r)])
                  w1) as (rag' & web' & new & w' & -> & Hsub & Hk).
      eexists rag', web', (_ :: new), w'. rewrite <- app_assoc.
      split; [done|]. split; [|by constructor].
      cbn. unfold invocation_label at 1. rewrite Hrag.
      by apply sublist_skip.
    + destruct (IH None web results w1)
        as (rag' & web' & new & w' & -> & Hsub & Hk).
      exists rag', web', new, w'. split; [done|]. split; [|done].
      by apply sublist_cons.
  - destruct (decide _) as [Hweb|_].
    + unfold bind.
      destruct (execute_web_search_returns E (inv_query inv) w)
        as (r & w1 & ->).
      destruct r as [r|].
      * destruct (IH rag (Some r)
                    (results ++
                     [mk_tool_result (py "InternetSearch") (inv_query inv)
                        (Web_output r)])
                    w1) as (rag' & web' & new & w' & -> & Hsub & Hk).
        eexists rag', web', (_ :: new), w'. rewrite <- app_assoc.
        split; [done|]. split; [|by constructor].
        cbn. unfold invocation_label at 1. rewrite Hweb.
        by apply sublist_skip.
      * destruct (IH rag None results w1)
          as (rag' & web' & new & w' & -> & Hsub & Hk).
        exists rag', web', new, w'. split; [done|]. split; [|done].
        by apply sublist_cons.
    + destruct (IH rag web results w)
        as (rag' & web' & new & w' & -> & Hsub & Hk).
      exists rag', web', new, w'. split; [done|]. split; [|done].
      by apply sublist_cons.
Qed.

Lemma run_invocations_no_web invocations rag results w :
  tavily_client E = None ->
  exists rag' new w',
    run_invocations E invocations rag None results w
    = (Ok (rag', None, results ++ new), w')
    /\ Forall (fun r => tr_tool r = RAG) new.
Proof.
  intros Hno. revert rag results w.
  induction invocations as [|inv rest IH]; intros rag results w.
  { exists rag, [], w. by rewrite app_nil_r. }
  cbn [run_invocations]. destruct (decide _) as [Hrag|_].
  - unfold bind.
    destruct (execute_rag_returns E (inv_query inv) w) as (r & w1 & ->).
    destruct r as [r|].
    + destruct (IH (Some r)
                  (results ++
                   [mk_tool_result (py "RAG") (inv_query inv) (RAG_output r)])
                  w1) as (rag' & new & w' & -> & Hall).
      eexists rag', (_ :: new), w'. rewrite <- app_assoc.
      split; [done|]. by constructor.
    + apply IH.
  - destruct (decide _) as [Hweb|_]; [|apply IH].
    unfold bind. rewrite execute_web_unavailable by done. apply IH.
Qed.

Lemma run_invocations_all_down invocations results w :
  tavily_client E = None -> retrieval_down E ->
  exists w',
    run_invocations E invocations None None results w
    = (Ok (None, None, results), w').
Proof.
  intros Hno Hdown. revert w.
  induction invocations as [|inv rest IH]; intros w; [by exists w|].
  cbn [run_invocations]. destruct (decide _) as [Hrag|_].
  - unfold bind.
    destruct (execute_rag_down (inv_query inv) w Hdown) as (w1 & ->).
    apply IH.
  - destruct (decide _) as [Hweb|_]; [|apply IH].
    unfold bind. rewrite execute_web_unavailable by done. apply IH.
Qed.

Lemma points_to_last_snoc {A B} (f : A -> option B) (l : list A) (a : A)
  (b : B) :
  f a = Some b -> points_to_last (Some b) (omap f (l ++ [a])).
Proof.
  intros Hf x [= <-]. rewrite omap_app. cbn. rewrite Hf.
  apply last_snoc.
Qed.

Lemma points_to_last_skip {A B} (f : A -> option B) (l : list A) (a : A)
  (p : option B) :
  f a = None -> points_to_last p (omap f l) ->
  points_to_last p (omap f (l ++ [a])).
Proof.
  intros Hf H. rewrite omap_app. cbn. rewrite Hf. by rewrite app_nil_r.
Qed.

Lemma run_invocations_pointers invocations rag web results w rag' web'
  results' w' :
  points_to_last rag (omap record_rag results) ->
  points_to_last web (omap record_web results) ->
  run_invocations E invocations rag web results w
  = (Ok (rag', web', results'), w') ->
  points_to_last rag' (omap record_rag results')
  /\ points_to_last web' (omap record_web results').
Proof.
  revert rag web results w.
  induction invocations as [|inv rest IH]; intros rag web results w Hr Hw.
  { by intros [= <- <- <- <-]. }
  cbn [run_invocations]. destruct (decide _) as [Hrag|_].
  - unfold bind.
    destruct (execute_rag_returns E (inv_query inv) w) as (r & w1 & ->).
    destruct r as [r|]; apply IH; try done.
    + by apply points_to_last_snoc.
    + by apply points_to_last_skip.
  - destruct (decide _) as [Hweb|_]; [|by apply IH].
    unfold bind.
    destruct (execute_web_search_returns E (inv_query inv) w)
      as (r & w1 & ->).
    destruct r as [r|]; apply IH; try done.
    + by apply points_to_last_skip.
    + by apply points_to_last_snoc.
Qed.

End Executor.

Section Agent.
Context {W : Type} (E : Env W).

Lemma tool_process_query_cases self_mode query mode w :
  exists invocations w1,
    _get_tool_invocations E query (default self_mode mode) w
    = (Ok invocations, w1)
    /\ match invocations with
       | [] =>
           ToolUsageAgent.process_query E self_mode query mode w
           = (Ok (_create_error_result self_mode
                    (py "No tool invocations generated") query), w1)
       | _ :: _ =>
           exists rag web results w',
             run_invocations E invocations None None [] w1
             = (Ok (rag, web, results), w')
             /\ ToolUsageAgent.process_query E self_mode query mode w
                = (Ok (mk_agent_result true None None invocations results
                         rag web (default self_mode mode)), w')
       end.
Proof.
  destruct (get_tool_invocations_returns E query (default self_mode mode) w)
    as (invocations & w1 & Hget).
  exists invocations, w1. split; [done|].
  unfold ToolUsageAgent.process_query, try_except, bind. rewrite Hget.
  destruct invocations as [|inv rest]; [done|].
  destruct (run_invocations_returns E (inv :: rest) None None [] w1)
    as ([[rag web] results] & w' & Hrun).
  exists rag, web, results, w'. by rewrite Hrun.
Qed.

(** [ToolUsageAgent.process_query] always returns a result.  The
    (tool, query) labels of its records are a subsequence of the labels of
    the planned invocations: records come in plan order, at most one per
    invocation, none that was not planned; and the label of a record names
    the kind of result it holds. *)
Theorem executor_records_follow_plan self_mode query mode w :
  exists result w',
    ToolUsageAgent.process_query E self_mode query mode w = (Ok result, w')
    /\ sublist (List.map record_label (tool_results result))
         (List.map invocation_label (tool_invocations result))
    /\ Forall kind_consistent (tool_results result).
Proof.
  destruct (tool_process_query_cases self_mode query mode w)
    as ([|inv rest] & w1 & _ & H).
  - eexists _, _. split; [exact H|]. split; [done|constructor].
  - destruct H as (rag & web & results & w' & Hrun & ->).
    destruct (run_invocations_follow E (inv :: rest) None None [] w1)
      as (rag' & web' & new & w2 & Hrun' & Hsub & Hk).
    rewrite Hrun in Hrun'. injection Hrun' as -> -> -> ->.
    eexists _, _. split; [done|]. by split.
Qed.

(** [_execute_web_search] without a web-search client: whatever the plan
    asks for, every record of the result is a RAG record and [web_result]
    is [None]. *)
Theorem web_unavailable_drops_web_invocations self_mode query mode w :
  tavily_client E = None ->
  exists result w',
    ToolUsageAgent.process_query E self_mode query mode w = (Ok result, w')
    /\ Forall (fun r => tr_tool r = RAG) (tool_results result)
    /\ web_result result = None.
Proof.
  intros Hno.
  destruct (tool_process_query_cases self_mode query mode w)
    as ([|inv rest] & w1 & _ & H).
  - eexists _, _. split; [exact H|]. split; [constructor|done].
  - destruct H as (rag & web & results & w' & Hrun & ->).
    destruct (run_invocations_no_web E (inv :: rest) None [] w1 Hno)
      as (rag' & new & w2 & Hrun' & Hall).
    rewrite Hrun in Hrun'. injection Hrun' as -> -> -> ->.
    eexists _, _. split; [done|]. by split.
Qed.

(** [ToolUsageAgent.process_query] when every tool fails: with a plan that
    is not empty, a retrieval backend that raises on every call and no
    web-search client, the result still has [success = True]; it carries
    the plan, no record and no result pointer. *)
Theorem failed_invocations_are_not_a_failure self_mode query mode w w1
  inv rest :
  tavily_client E = None -> retrieval_down E ->
  _get_tool_invocations E query (default self_mode mode) w
  = (Ok (inv :: rest), w1) ->
  exists w',
    ToolUsageAgent.process_query E self_mode query mode w
    = (Ok (mk_agent_result true None None (inv :: rest) [] None None
             (default self_mode mode)), w').
Proof.
  intros Hno Hdown Hget.
  destruct (tool_process_query_cases self_mode query mode w)
    as (invocations & w1' & Hget' & H).
  rewrite Hget in Hget'. injection Hget' as <- <-.
  destruct H as (rag & web & results & w' & Hrun & ->).
  destruct (run_invocations_all_down E (inv :: rest) [] w1 Hno Hdown)
    as (w2 & Hrun').
  rewrite Hrun in Hrun'. injection Hrun' as -> -> -> ->. by exists w2.
Qed.

(** [ToolUsageAgent.process_query]: [rag_result] and [web_result], when
    they are set, are the result held by the last record of their kind. *)
Theorem result_pointers_point_to_last_records self_mode query mode w
  result w' :
  ToolUsageAgent.process_query E self_mode query mode w = (Ok result, w') ->
  points_to_last (rag_result result)
    (omap record_rag (tool_results result))
  /\ points_to_last (web_result result)
       (omap record_web (tool_results result)).
Proof.
  destruct (tool_process_query_cases self_mode query mode w)
    as ([|inv rest] & w1 & _ & H).
  - rewrite H. by intros [= <- <-].
  - destruct H as (rag & web & results & w2 & Hrun & ->).
    intros [= <- <-]. cbn [rag_result web_result tool_results].
    by eapply run_invocations_pointers; [| |exact Hrun].
Qed.

Lemma synthesize_answer_cases self_mode query records mode w :
  exists fa w',
    synthesize_answer E self_mode query records mode w = (Ok fa, w')
    /\ ((exists e, fa = _create_fallback_answer query e)
        \/ (exists raw,
              fa = FinalAnswer.mk raw 0%Q []
                     (snd (_prepare_synthesis_input_from_tool_results query
                             records)))).
Proof.
  unfold synthesize_answer, try_except, bind.
  destruct (default self_mode mode).
  - destruct (FanarService.thinking_chat E _ _ w) as [[[raw|]|e] w1];
      eexists _, _; (split; [reflexivity|]); eauto.
  - destruct (FanarService.simple_chat E _ _ w) as [[[raw|]|e] w1];
      eexists _, _; (split; [reflexivity|]); eauto.
Qed.

Lemma synthesize_answer_mode sm1 sm2 query records m1 m2 :
  default sm1 m1 = default sm2 m2 ->
  synthesize_answer E sm1 query records m1
  = synthesize_answer E sm2 query records m2.
Proof. intros H. unfold synthesize_answer. by rewrite H. Qed.

Lemma tool_process_query_mode sm1 sm2 query m1 m2 w :
  default sm1 m1 = default sm2 m2 ->
  exists r1 r2 w',
    ToolUsageAgent.process_query E sm1 query m1 w = (Ok r1, w')
    /\ ToolUsageAgent.process_query E sm2 query m2 w = (Ok r2, w')
    /\ success r1 = success r2 /\ error r1 = error r2
    /\ tool_results r1 = tool_results r2
    /\ rag_result r1 = rag_result r2 /\ web_result r1 = web_result r2.
Proof.
  intros H.
  destruct (tool_process_query_cases sm1 query m1 w)
    as (invs & w1 & Hget & H1).
  destruct (tool_process_query_cases sm2 query m2 w)
    as (invs' & w1' & Hget' & H2).
  rewrite <- H, Hget in Hget'. injection Hget' as <- <-.
  destruct invs as [|inv rest].
  - eexists _, _, _. split; [exact H1|]. split; [exact H2|]. done.
  - destruct H1 as (rag & web & results & w' & Hrun & ->).
    destruct H2 as (rag' & web' & results' & w'' & Hrun' & ->).
    rewrite Hrun in Hrun'. injection Hrun' as <- <- <- <-.
    eexists _, _, _. split; [done|]. split; [done|]. done.
Qed.

(** [Orchestrator.process_query]: thinking mode reaches the pipeline only
    through the effective mode of the two agents, the argument of the call
    when it is given and the agent's own flag otherwise.  Two calls with
    equal effective modes have the same outcome from the same world. *)
Theorem response_depends_on_effective_mode self1 self2 request m1 m2 w :
  default (tool_usage_agent_mode self1) m1
  = default (tool_usage_agent_mode self2) m2 ->
  default (synthesis_agent_mode self1) m1
  = default (synthesis_agent_mode self2) m2 ->
  Orchestrator.process_query E self1 request m1 w
  = Orchestrator.process_query E self2 request m2 w.
Proof.
  intros Ht Hs. unfold Orchestrator.process_query, bind, try_except.
  destruct (now E w) as [[t0|e0] w1]; [|done].
  destruct (rewrite_query E (QueryRequest.query request) w1)
    as [[rq|e1] w2]; [|done].
  destruct (tool_process_query_mode (tool_usage_agent_mode self1)
              (tool_usage_agent_mode self2)
              (RewrittenQuery.rewritten_query rq) m1 m2 w2 Ht)
    as (r1 & r2 & w3 & -> & -> & Hsucc & Herr & Hres & Hrag & Hweb).
  rewrite Hsucc, Herr, Hres, Hrag, Hweb.
  by rewrite (synthesize_answer_mode (synthesis_agent_mode self1)
                (synthesis_agent_mode self2) _ _ m1 m2 Hs).
Qed.

(** [Orchestrator.process_query] always returns a response.  Its final
    answer is the fixed fallback answer for some error text, or a chat
    answer with its citation markers substituted that carries the origin
    lists of the records it was synthesized from; the response carries the
    rewriter's result for the query of the request. *)
Theorem response_is_fallback_or_synthesis self request mode w :
  exists response w' rq,
    Orchestrator.process_query E self request mode w = (Ok response, w')
    /\ (is_fallback (SystemResponse.final_answer response)
        \/ is_synthesis (QueryRequest.query request)
             (SystemResponse.final_answer response))
    /\ SystemResponse.rewritten_query response = Some rq
    /\ RewrittenQuery.original_query rq = QueryRequest.query request.
Proof.
  unfold Orchestrator.process_query, bind at 1.
  destruct (now_returns E w) as (t0 & w1 & ->).
  unfold try_except, bind at 1.
  destruct (rewrite_query_cases E (QueryRequest.query request) w1)
    as (rq & w2 & -> & Ho & _).
  unfold bind at 1.
  destruct (tool_process_query_returns E (tool_usage_agent_mode self)
              (RewrittenQuery.rewritten_query rq) mode w2)
    as (ar & w3 & ->).
  unfold bind at 1. destruct (success ar).
  - destruct (synthesize_answer_cases (synthesis_agent_mode self)
                (QueryRequest.query request) (tool_results ar) mode w3)
      as (fa & w4 & -> & Hfa).
    unfold bind at 1. destruct (now_returns E w4) as (t1 & w5 & ->).
    eexists _, _, rq. split; [reflexivity|]. split; [|by split].
    cbn [SystemResponse.final_answer]. destruct Hfa as [[e ->]|[raw ->]].
    + left. exists e. cbn. by rewrite replace_no_references.
    + right. by exists raw, (tool_results ar).
  - unfold ret at 1, bind at 1.
    destruct (now_returns E w3) as (t1 & w5 & ->).
    eexists _, _, rq. split; [reflexivity|]. split; [|by split].
    left. eexists. cbn. by rewrite replace_no_references.
Qed.

End Agent.

(** ** Thinking mode *)

Lemma find_sub_before_clear (p s before after : str) :
  p <> [] -> find_sub p s = Some (before, after) ->
  contains p before = false.
Proof.
  intros Hp [-> Hmin]%find_sub_Some. apply not_true_is_false.
  intros (x & y & ->)%contains_iff.
  specialize (Hmin x (y ++ p ++ after)).
  rewrite <- !app_assoc in Hmin. specialize (Hmin eq_refl).
  rewrite !length_app in Hmin. destruct p; [done|]. simpl in Hmin. lia.
Qed.

Section Thinking.
Context {W : Type} (E : Env W).

(** [thinking_chat]: a first reply without [</think>] that did not stop for
    length is the result, and no second request is made. *)
Theorem thinking_chat_single_round input max_tokens w output finish_reason
  w1 :
  requests_post_chat E [Message.mk (py "thinking_user") input]
    (or_default max_tokens settings.max_tokens_thinking) w
  = (Ok (Some output, finish_reason), w1) ->
  contains (py "</think>") output = false ->
  finish_reason <> py "length" ->
  FanarService.thinking_chat E input max_tokens w = (Ok (Some output), w1).
Proof.
  intros Hpost Htag Hlen.
  unfold FanarService.thinking_chat, try_except, bind. rewrite Hpost.
  cbn [fst snd]. rewrite Htag. by rewrite bool_decide_eq_false_2.
Qed.

(** [thinking_chat]: a first reply with [</think>] in it, or one that
    stopped for length, leads to a second request.  Its messages are the
    user input under the role [user] and, under the role [thinking], the
    first reply up to its first [</think>] (the whole reply when it has
    none); the content of the second reply is the result, and a failure of
    the second request is raised. *)
Theorem thinking_chat_second_round input max_tokens w output finish_reason
  w1 :
  requests_post_chat E [Message.mk (py "thinking_user") input]
    (or_default max_tokens settings.max_tokens_thinking) w
  = (Ok (Some output, finish_reason), w1) ->
  contains (py "</think>") output = true \/ finish_reason = py "length" ->
  exists thinking,
    thinking_part output thinking
    /\ FanarService.thinking_chat E input max_tokens w
       = match requests_post_chat E
                 [Message.mk (py "user") input;
                  Message.mk (py "thinking") thinking]
                 settings.max_tokens_default w1 with
         | (Ok final_response, w2) => (Ok (fst final_response), w2)
         | (Raise e, w2) => (Raise e, w2)
         end.
Proof.
  intros Hpost Hstaged. unfold thinking_part.
  unfold FanarService.thinking_chat, try_except, bind. rewrite Hpost.
  cbn [fst snd].
  destruct (contains (py "</think>") output) eqn:Htag.
  - destruct (contains_find_sub _ _ Htag) as (before & after & Hfind).
    rewrite Hfind. exists before. split.
    + split.
      * exists after. by apply find_sub_Some in Hfind as [-> _].
      * by eapply find_sub_before_clear.
    + cbn. by destruct (requests_post_chat E _ _ w1) as [[r|e] w2].
  - destruct Hstaged as [Hc|Hl]; [done|]. subst finish_reason. exists output. split; [done|].
    rewrite bool_decide_eq_true_2 by done. cbn.
    by destruct (requests_post_chat E _ _ w1) as [[r|e] w2].
Qed.

End Thinking.

(** ** What the rewriter takes from the reply *)

Lemma part_of_contains (a b : str) : part_of a b <-> contains a b = true.
Proof. symmetry. apply contains_iff. Qed.

Lemma part_of_refl (a : str) : part_of a a.
Proof. exists [], []. by rewrite app_nil_r. Qed.

Lemma part_of_trans (a b c : str) : part_of a b -> part_of b c -> part_of a c.
Proof.
  intros (p1 & q1 & ->) (p2 & q2 & ->).
  exists (p2 ++ p1), (q1 ++ q2). by rewrite <- !app_assoc.
Qed.

Lemma part_of_strip (s : str) : part_of (strip s) s.
Proof.
  destruct (strip_trimmed s) as (l & r & E & _). by exists l, r.
Qed.

Lemma part_of_drop (n : nat) (s : str) : part_of (drop n s) s.
Proof. exists (take n s), []. by rewrite app_nil_r, take_drop. Qed.

Lemma part_of_cons (c : N) (a b : str) : part_of a b -> part_of a (c :: b).
Proof. intros (p & q & ->). by exists (c :: p), q. Qed.

Lemma split_char_head_prefix (sep : N) (s y : str) (ys : list str) :
  split_char sep s = y :: ys -> exists q, s = y ++ q.
Proof.
  revert y ys. induction s as [|c s IH]; intros y ys; simpl.
  - intros [= <- <-]. by exists [].
  - destruct (c =? sep)%N.
    + intros [= <- <-]. by exists (c :: s).
    + destruct (split_char sep s) as [|z zs] eqn:Es.
      * intros [= <- <-]. by exists s.
      * intros [= <- <-]. destruct (IH z zs eq_refl) as (q & ->).
        by exists q.
Qed.

Lemma part_of_split_char (sep : N) (s x : str) :
  x ∈ split_char sep s -> part_of x s.
Proof.
  revert x. induction s as [|c s IH]; intros x; simpl.
  - intros ->%list_elem_of_singleton. apply part_of_refl.
  - destruct (N.eqb_spec c sep) as [->|Hne].
    + intros [->|Hx]%elem_of_cons.
      * by exists [], (sep :: s).
      * by apply part_of_cons, IH.
    + destruct (split_char sep s) as [|y ys] eqn:Es.
      * intros ->%list_elem_of_singleton. by exists [], s.
      * intros [->|Hx]%elem_of_cons.
        -- destruct (split_char_head_prefix _ _ _ _ Es) as (q & ->).
           by exists [], q.
        -- apply part_of_cons, IH. by right.
Qed.

Lemma part_of_split1_second (p s part : str) :
  split1 p s !! 1 = Some part -> part_of part s.
Proof.
  unfold split1. destruct (find_sub p s) as [[b a]|] eqn:E; [|done].
  intros [= <-]. apply find_sub_Some in E as [-> _].
  exists (b ++ p), []. by rewrite app_nil_r, <- app_assoc.
Qed.

Lemma step_from_refl response st : step_from response st st.
Proof. split; [by left|]. exists []. by rewrite app_nil_r. Qed.

Lemma step_from_trans response st1 st2 st3 :
  step_from response st1 st2 -> step_from response st2 st3 ->
  step_from response st1 st3.
Proof.
  intros [H1 (n1 & E1 & F1)] [H2 (n2 & E2 & F2)]. split.
  - destruct H2 as [->|H2]; [done|by right].
  - exists (n1 ++ n2). rewrite E2, E1, <- app_assoc. split; [done|].
    by apply Forall_app.
Qed.

Lemma parse_line_parts (response : str) (st : parse_state) (raw : str) :
  part_of raw response ->
  exists st', parse_line st raw = Ok st' /\ step_from response st st'.
Proof.
  intros Hraw.
  assert (Hline : part_of (strip raw) response)
    by (eapply part_of_trans; [apply part_of_strip|done]).
  assert (Hkeep : forall sec,
             step_from response st
               (mk_state (st_rewritten_query st) (st_improvements st) sec))
    by (intros sec; split; [by left|]; exists []; by rewrite app_nil_r).
  assert (Hset : forall q sec, part_of q response ->
             step_from response st (mk_state q (st_improvements st) sec)).
  { intros q sec Hq. split; [by right|]. exists []. by rewrite app_nil_r. }
  assert (Hadd : forall i, part_of i response ->
             step_from response st
               (mk_state (st_rewritten_query st) (st_improvements st ++ [i])
                  (st_current_section st))).
  { intros i Hi. split; [by left|]. exists [i]. split; [done|].
    by constructor. }
  unfold parse_line.
  destruct (nonempty (strip raw)) eqn:Hne; cbn [negb andb orb];
    [|eexists; split; [done|apply step_from_refl]].
  destruct (startswith (py "1. Rewritten Query:") (strip raw)
            || contains (py "Rewritten Query:") (strip raw)).
  { destruct (contains (py ":") (strip raw)) eqn:Hc; [|by eauto].
    destruct (split1_second _ _ Hc) as [part Hpart]. rewrite Hpart.
    destruct (nonempty (strip part) && negb (startswith (py "[") (strip part)));
      [|by eauto].
    eexists. split; [done|]. apply Hset.
    eapply part_of_trans; [apply part_of_strip|].
    eapply part_of_trans; [by eapply part_of_split1_second|done]. }
  destruct (startswith (py "2. Improvements Made:") (strip raw)
            || contains (py "Improvements Made:") (strip raw)); [by eauto|].
  destruct (bool_decide (st_current_section st = Some sec_query));
    cbn [negb andb orb].
  { destruct (negb (startswith (py "[") (strip raw))
              && negb (startswith (py "2.") (strip raw)));
      eexists; (split; [done|]); [by apply Hset|apply step_from_refl]. }
  destruct (bool_decide (st_current_section st = Some sec_improvements));
    cbn [negb andb orb]; [|eexists; split; [done|apply step_from_refl]].
  destruct (startswith (py "-") (strip raw) || startswith bullet (strip raw)
            || startswith (py "*") (strip raw)).
  { eexists. split; [done|]. apply Hadd.
    eapply part_of_trans; [apply part_of_strip|].
    eapply part_of_trans; [apply part_of_drop|done]. }
  destruct (negb (startswith (py "[") (strip raw)));
    eexists; (split; [done|]); [by apply Hadd|apply step_from_refl].
Qed.

Lemma parse_lines_parts (response : str) (lines : list str)
  (st : parse_state) :
  Forall (fun raw => part_of raw response) lines ->
  exists st', parse_lines st lines = Ok st' /\ step_from response st st'.
Proof.
  intros Hl. revert st. induction Hl as [|raw lines Hraw _ IH]; intros st.
  - exists st. split; [done|apply step_from_refl].
  - cbn [parse_lines].
    destruct (parse_line_parts response st raw Hraw) as (st1 & -> & H1).
    destruct (IH st1) as (st2 & -> & H2). exists st2. split; [done|].
    by eapply step_from_trans.
Qed.

Lemma response_lines_parts (response : str) :
  Forall (fun raw => part_of raw response)
    (split_char newline (strip response)).
Proof.
  apply Forall_forall. intros raw Hraw%part_of_split_char.
  eapply part_of_trans; [done|apply part_of_strip].
Qed.

(** [_parse_response] makes up no text.  The rewritten query is the original
    query, as given or stripped, or a contiguous part of the reply; the
    improvements are the default note alone, or contiguous parts of the
    reply. *)
Theorem parser_takes_text_from_response (response original_query : str) :
  let parsed := _parse_response (Some response) original_query in
  (fst parsed = original_query \/ fst parsed = strip original_query
   \/ contains (fst parsed) response = true)
  /\ (snd parsed = [default_improvement]
      \/ Forall (fun i => contains i response = true) (snd parsed)).
Proof.
  unfold _parse_response, parse_body.
  destruct (parse_lines_parts response _
              (mk_state original_query [] None)
              (response_lines_parts response))
    as (st & -> & [Hrq (new & Hi & Hnew)]).
  cbn [fst snd st_rewritten_query st_improvements] in *. split.
  - destruct (startswith (py "[") (strip (st_rewritten_query st))
              && endswith (py "]") (strip (st_rewritten_query st)));
      [by left|].
    destruct Hrq as [->|Hrq]; [by right; left|]. right. right.
    apply part_of_contains. eapply part_of_trans; [apply part_of_strip|done].
  - rewrite Hi. cbn [app]. destruct new as [|i new]; [by left|]. right.
    eapply Forall_impl; [exact Hnew|]. intros x. apply part_of_contains.
Qed.

Lemma contains_part_false (kw a b : str) :
  part_of a b -> contains kw b = false -> contains kw a = false.
Proof.
  intros Hab Hb. apply not_true_is_false. intros Ha%part_of_contains.
  apply not_true_iff_false in Hb. apply Hb, part_of_contains.
  by eapply part_of_trans.
Qed.

Lemma startswith_contains (p q s : str) :
  startswith (p ++ q) s = true -> contains q s = true.
Proof.
  intros [r ->]%startswith_iff. apply contains_iff. exists p, r.
  by rewrite <- app_assoc.
Qed.

Lemma no_header_line (kw pre raw : str) :
  contains kw (strip raw) = false ->
  startswith (pre ++ kw) (strip raw) || contains kw (strip raw) = false.
Proof.
  intros H. rewrite H, orb_false_r. apply not_true_is_false.
  intros Hs%startswith_contains. congruence.
Qed.

Lemma parse_line_idle (st : parse_state) (raw : str) :
  st_current_section st = None ->
  contains (py "Rewritten Query:") (strip raw) = false ->
  contains (py "Improvements Made:") (strip raw) = false ->
  parse_line st raw = Ok st.
Proof.
  intros Hsec H1 H2. unfold parse_line.
  destruct (negb (nonempty (strip raw))); [done|].
  change (py "1. Rewritten Query:") with (py "1. " ++ py "Rewritten Query:").
  rewrite no_header_line by done.
  change (py "2. Improvements Made:")
    with (py "2. " ++ py "Improvements Made:").
  rewrite no_header_line by done. by rewrite Hsec.
Qed.

Lemma parse_lines_idle (lines : list str) (st : parse_state) :
  st_current_section st = None ->
  Forall (fun raw =>
            contains (py "Rewritten Query:") (strip raw) = false
            /\ contains (py "Improvements Made:") (strip raw) = false) lines ->
  parse_lines st lines = Ok st.
Proof.
  intros Hsec. induction 1 as [|raw lines [H1 H2] _ IH]; [done|].
  cbn [parse_lines]. by rewrite parse_line_idle.
Qed.

Lemma parse_line_query_kept (st : parse_state) (raw : str) :
  st_current_section st <> Some sec_query ->
  contains (py "Rewritten Query:") (strip raw) = false ->
  exists st',
    parse_line st raw = Ok st'
    /\ st_rewritten_query st' = st_rewritten_query st
    /\ st_current_section st' <> Some sec_query.
Proof.
  intros Hsec H1. unfold parse_line.
  destruct (negb (nonempty (strip raw))); [by eauto|].
  change (py "1. Rewritten Query:") with (py "1. " ++ py "Rewritten Query:").
  rewrite no_header_line by done.
  destruct (startswith (py "2. Improvements Made:") (strip raw)
            || contains (py "Improvements Made:") (strip raw)).
  { eexists. split; [done|]. by split. }
  rewrite bool_decide_false by done. cbn [andb].
  destruct (bool_decide (st_current_section st = Some sec_improvements)
            && nonempty (strip raw)); [|by eauto].
  destruct (startswith (py "-") (strip raw) || startswith bullet (strip raw)
            || startswith (py "*") (strip raw)); [by eauto|].
  destruct (negb (startswith (py "[") (strip raw))); by eauto.
Qed.

Lemma parse_lines_query_kept (lines : list str) (st : parse_state) :
  st_current_section st <> Some sec_query ->
  Forall (fun raw => contains (py "Rewritten Query:") (strip raw) = false)
    lines ->
  exists st',
    parse_lines st lines = Ok st'
    /\ st_rewritten_query st' = st_rewritten_query st.
Proof.
  intros Hsec Hlines. revert st Hsec.
  induction Hlines as [|raw lines H1 _ IH]; intros st Hsec; [by eauto|].
  cbn [parse_lines].
  destruct (parse_line_query_kept st raw Hsec H1) as (st1 & -> & Hq & Hsec1).
  destruct (IH st1 Hsec1) as (st2 & -> & Hq2). exists st2.
  split; [done|]. by rewrite Hq2.
Qed.

(** A reply without the header of the query section leaves the query as it
    was given, up to the final [strip]. *)
Lemma parse_response_without_query_section (response original_query : str) :
  contains (py "Rewritten Query:") response = false ->
  fst (_parse_response (Some response) original_query)
  = if is_bracketed (strip original_query)
    then original_query else strip original_query.
Proof.
  intros H1. unfold _parse_response, parse_body.
  destruct (parse_lines_query_kept (split_char newline (strip response))
              (mk_state original_query [] None)) as (st & -> & Hq);
    [done| |by rewrite Hq].
  eapply Forall_impl; [apply response_lines_parts|].
  intros raw Hraw. cbn beta.
  eapply contains_part_false; [|exact H1].
  eapply part_of_trans; [apply part_of_strip|done].
Qed.

(** C7, as amended.  For an original query that has a non-whitespace
    character and is not itself bracketed, the rewritten query is never
    empty and never a bracketed placeholder, on the parsing path and on the
    backend-failure path.  For every query: the parser raises only on a
    reply without content, and the rewritten query is then the original
    one; on a reply without the header of the query section the rewritten
    query is the original one stripped of the white space around it, or
    the original one as given when its stripped form is bracketed; so it is
    the original one whenever that has no white space around it. *)
Theorem rewritten_query_sound (original_query : str) :
  (strip original_query <> [] -> is_bracketed original_query = false ->
   (forall response,
       fst (_parse_response response original_query) <> []
       /\ is_bracketed (fst (_parse_response response original_query)) = false)
   /\ (forall W (E : Env W) (w : W),
         exists rq w',
           rewrite_query E original_query w = (Ok rq, w')
           /\ RewrittenQuery.rewritten_query rq <> []
           /\ is_bracketed (RewrittenQuery.rewritten_query rq) = false))
  /\ (forall response e,
        parse_body response original_query = Raise e ->
        response = None
        /\ fst (_parse_response response original_query) = original_query)
  /\ (forall response,
        contains (py "Rewritten Query:") response = false ->
        fst (_parse_response (Some response) original_query)
        = if is_bracketed (strip original_query)
          then original_query else strip original_query)
  /\ (strip original_query = original_query ->
      forall response,
        contains (py "Rewritten Query:") response = false ->
        fst (_parse_response (Some response) original_query)
        = original_query).
Proof.
  split; [|split; [|split]].
  - intros Hne Hnb. split; [intros r; by apply parse_response_sound|].
    intros W E w.
    destruct (rewrite_query_cases E original_query w)
      as (rq & w' & H & _ & [(r & Hr & _)|[Hr _]]); exists rq, w';
      (split; [done|]); rewrite Hr.
    + by apply parse_response_sound.
    + apply simple_enhance_sound; [by apply strip_nonempty|done].
  - intros response e H. split.
    + destruct response as [r|]; [|done].
      destruct (parse_body_Some r original_query) as [x Hx]. congruence.
    + unfold _parse_response. by rewrite H.
  - intros response H. by apply parse_response_without_query_section.
  - intros Hs response H.
    rewrite parse_response_without_query_section by done.
    rewrite Hs. by destruct (is_bracketed original_query).
Qed.

(** C7 fails as stated: with a reply that has no section, the empty query
    comes back empty, a bracketed query comes back bracketed, and a query
    with white space around it comes back stripped, not as it was given. *)
Lemma rewritten_query_counterexample :
  (exists rq w,
      rewrite_query (env_chatty "Sure.") [] 0 = (Ok rq, w)
      /\ RewrittenQuery.rewritten_query rq = [])
  /\ (exists rq w,
         rewrite_query (env_chatty "Sure.") (py "[topic]") 0 = (Ok rq, w)
         /\ RewrittenQuery.rewritten_query rq = py "[topic]"
         /\ is_bracketed (RewrittenQuery.rewritten_query rq) = true)
  /\ (exists rq w,
         rewrite_query (env_chatty "Sure.") (py " What breaks a fast? ") 0
         = (Ok rq, w)
         /\ RewrittenQuery.rewritten_query rq = py "What breaks a fast?"
         /\ RewrittenQuery.rewritten_query rq
            <> RewrittenQuery.original_query rq).
Proof. repeat split; eexists _, _; vm_compute; done. Qed.

Lemma rewritten_query_witness :
  exists rq w,
    rewrite_query
      (env_chatty "1. Rewritten Query: conditions invalidating fasting (sawm)")
      (py "What breaks a fast?") 0 = (Ok rq, w)
    /\ RewrittenQuery.rewritten_query rq <> []
    /\ is_bracketed (RewrittenQuery.rewritten_query rq) = false.
Proof.
  apply (proj1 (rewritten_query_sound (py "What breaks a fast?")));
    vm_compute; done.
Defined.

(** [_parse_response] on a reply that names neither section: the rewritten
    query is the original query stripped, or the original query as given
    when its stripped form is a bracketed placeholder, with the default
    note as the only improvement. *)
Theorem unstructured_reply_keeps_query (response original_query : str) :
  contains (py "Rewritten Query:") response = false ->
  contains (py "Improvements Made:") response = false ->
  _parse_response (Some response) original_query
  = (if is_bracketed (strip original_query)
     then original_query else strip original_query,
     [default_improvement]).
Proof.
  intros H1 H2. unfold _parse_response, parse_body.
  rewrite parse_lines_idle; [done|done|].
  eapply Forall_impl; [apply response_lines_parts|].
  intros raw Hraw. cbn beta.
  assert (Hs : part_of (strip raw) response)
    by (eapply part_of_trans; [apply part_of_strip|done]).
  split; by eapply contains_part_false.
Qed.

Lemma rstrip_cons_nonspace (c : N) (s : str) :
  isspace c = false -> rstrip (c :: s) = c :: rstrip s.
Proof. intros Hc. cbn [rstrip]. destruct (rstrip s); by rewrite ?Hc. Qed.

(** [_parse_response], improvements section: the bullet literal of the
    source is three code points long (226, 8364, 162) but only [line[1:]]
    is cut off a bullet line, so the improvement taken from such a line
    still opens with the code points 8364 and 162. *)
Theorem corrupted_bullet_half_stripped (st : parse_state) (rest : str) :
  st_current_section st = Some sec_improvements ->
  contains (py "Rewritten Query:") (strip (bullet ++ rest)) = false ->
  contains (py "Improvements Made:") (strip (bullet ++ rest)) = false ->
  exists improvement,
    parse_line st (bullet ++ rest)
    = Ok (mk_state (st_rewritten_query st)
            (st_improvements st ++ [improvement]) (st_current_section st))
    /\ startswith [8364%N; 162%N] improvement = true.
Proof.
  intros Hsec H1 H2.
  assert (Hstrip : strip (bullet ++ rest) = bullet ++ rstrip rest).
  { unfold strip, bullet. cbn [app lstrip isspace].
    change (isspace 226) with false. cbn iota.
    by rewrite !rstrip_cons_nonspace. }
  unfold parse_line. rewrite Hstrip in *.
  change (py "1. Rewritten Query:") with (py "1. " ++ py "Rewritten Query:").
  change (py "2. Improvements Made:")
    with (py "2. " ++ py "Improvements Made:").
  rewrite <- Hstrip, !no_header_line, Hstrip by (by rewrite Hstrip).
  rewrite Hsec. cbn [nonempty bullet app negb andb].
  rewrite bool_decide_eq_false_2 by done.
  rewrite bool_decide_eq_true_2 by done. cbn [andb].
  replace (startswith (py "-") (226%N :: 8364%N :: 162%N :: rstrip rest))
    with false by done.
  replace (startswith [226%N; 8364%N; 162%N]
             (226%N :: 8364%N :: 162%N :: rstrip rest)) with true
    by (symmetry; apply (startswith_app [226%N; 8364%N; 162%N])).
  cbn [orb drop]. eexists. split; [reflexivity|].
  unfold strip. cbn [lstrip]. change (isspace 8364) with false. cbn iota.
  rewrite !rstrip_cons_nonspace by done.
  apply (startswith_app [8364%N; 162%N]).
Qed.

(** ** Planner outputs and their extraction *)

Lemma findall_fuel_enough (opening closing : str) (n m : nat) (s : str) :
  opening <> [] -> length s < n -> length s < m ->
  findall_fuel n opening closing s = findall_fuel m opening closing s.
Proof.
  intros Hop. revert m s. induction n as [|n IH]; intros m s Hn Hm; [lia|].
  destruct m as [|m]; [lia|]. cbn [findall_fuel].
  destruct (find_sub opening s) as [[pre s1]|] eqn:E1; [|done].
  destruct (find_sub closing s1) as [[body s2]|] eqn:E2; [|done].
  f_equal. apply find_sub_Some in E1 as [-> _].
  apply find_sub_Some in E2 as [-> _]. rewrite !length_app in Hn, Hm.
  destruct opening; [done|]. simpl in Hn, Hm.
  apply IH; lia.
Qed.

Lemma findall_eq (opening closing s : str) :
  opening <> [] ->
  findall opening closing s
  = match find_sub opening s with
    | None => []
    | Some (_, s1) =>
        match find_sub closing s1 with
        | None => []
        | Some (group, s2) => group :: findall opening closing s2
        end
    end.
Proof.
  intros Hop. unfold findall at 1. cbn [findall_fuel].
  destruct (find_sub opening s) as [[pre s1]|] eqn:E1; [|done].
  destruct (find_sub closing s1) as [[body s2]|] eqn:E2; [|done].
  f_equal. apply find_sub_Some in E1 as [-> _].
  apply find_sub_Some in E2 as [-> _]. unfold findall.
  apply findall_fuel_enough; [done| |lia].
  rewrite !length_app. destruct opening; [done|]. simpl. lia.
Qed.

Lemma mismatch_startswith (p a s : str) :
  mismatch p a = true -> startswith p (a ++ s) = false.
Proof.
  revert a. induction p as [|x p IH]; intros [|y a]; simpl; try done.
  intros [H|H]%orb_prop.
  - apply negb_true_iff in H. by rewrite H.
  - rewrite (IH a H). apply andb_false_r.
Qed.

Lemma scan_clear_sound (p a : str) : scan_clear p a = true -> clear_of p a.
Proof.
  intros H a1. revert a H. induction a1 as [|c a1 IH]; intros a H a2 s -> Hne.
  - destruct a2 as [|y a2]; [done|]. cbn [app scan_clear] in H.
    apply andb_prop in H as [H _]. by apply mismatch_startswith.
  - cbn [app scan_clear] in H. apply andb_prop in H as [_ H].
    by eapply IH.
Qed.

Lemma clear_of_free (c : N) (p a : str) :
  free_of c a = true -> clear_of (c :: p) a.
Proof.
  intros Hfree%free_of_Forall a1 a2 s -> Hne.
  apply Forall_app in Hfree as [_ H2]. destruct a2 as [|y a2]; [done|].
  apply Forall_cons in H2 as [Hy _]. by apply startswith_head_ne.
Qed.

Lemma find_sub_clear (p a s : str) :
  clear_of p a ->
  find_sub p (a ++ s)
  = match find_sub p s with
    | Some (before, after) => Some (a ++ before, after)
    | None => None
    end.
Proof.
  induction a as [|c a IH]; intros Hc.
  - cbn [app]. by destruct (find_sub p s) as [[? ?]|].
  - cbn [app find_sub].
    change (c :: a ++ s) with ((c :: a) ++ s).
    rewrite (Hc [] (c :: a) s) by done. cbn [app]. rewrite IH.
    + by destruct (find_sub p s) as [[? ?]|].
    + intros a1 a2 s' -> Hne. by apply (Hc (c :: a1)).
Qed.

Lemma find_sub_here (p s : str) : find_sub p (p ++ s) = Some ([], s).
Proof.
  destruct (p ++ s) eqn:E; cbn [find_sub]; rewrite <- E, startswith_app;
    by rewrite drop_app_length.
Qed.

Lemma find_sub_absent (p a : str) :
  p <> [] -> clear_of p a -> find_sub p a = None.
Proof.
  intros Hp Hc. rewrite <- (app_nil_r a), find_sub_clear by done.
  destruct p; [done|]. done.
Qed.

Section Blocks.
Variables opening closing other_opening other_closing : str.
Variable own : invocation -> bool.
Hypothesis opening_lt : exists o, opening = lt_sign :: o.
Hypothesis closing_lt : exists c, closing = lt_sign :: c.
Hypothesis other_opening_clear : scan_clear opening other_opening = true.
Hypothesis other_closing_clear : scan_clear opening other_closing = true.

Lemma opening_nonempty : opening <> [].
Proof. by destruct opening_lt as [o ->]. Qed.

Lemma clear_of_plain (p a : str) :
  (exists o, p = lt_sign :: o) -> free_of lt_sign a = true -> clear_of p a.
Proof. intros [o ->]. apply clear_of_free. Qed.

Lemma findall_skip (a s : str) :
  clear_of opening a ->
  findall opening closing (a ++ s) = findall opening closing s.
Proof.
  intros Ha. rewrite (findall_eq _ _ (a ++ s)), (findall_eq _ _ s)
    by apply opening_nonempty.
  rewrite find_sub_clear by done.
  by destruct (find_sub opening s) as [[? ?]|].
Qed.

Lemma findall_own_block (gap q rest : str) :
  free_of lt_sign gap = true -> free_of lt_sign q = true ->
  findall opening closing (gap ++ opening ++ q ++ closing ++ rest)
  = q :: findall opening closing rest.
Proof.
  intros Hgap Hq. rewrite findall_eq by apply opening_nonempty.
  rewrite find_sub_clear by by apply clear_of_plain.
  rewrite find_sub_here.
  rewrite find_sub_clear by by apply clear_of_plain.
  by rewrite find_sub_here, app_nil_r.
Qed.

Lemma findall_blocks (items : list (str * invocation)) (trailer : str) :
  Forall (fun item =>
            free_of lt_sign (fst item) = true
            /\ free_of lt_sign (inv_query (snd item)) = true) items ->
  free_of lt_sign trailer = true ->
  findall opening closing
    (concat
       (List.map
          (fun item =>
             fst item
             ++ block opening closing other_opening other_closing own
                  (snd item)) items)
     ++ trailer)
  = List.map inv_query (List.filter own (List.map snd items)).
Proof.
  intros Hitems Htrailer.
  induction Hitems as [|[gap inv] items [Hgap Hq] _ IH].
  - cbn [List.map concat app List.filter].
    rewrite findall_eq by apply opening_nonempty.
    rewrite find_sub_absent; [done|apply opening_nonempty|].
    by apply clear_of_plain.
  - cbn [List.map concat fst snd List.filter] in *. unfold block at 1.
    destruct (own inv); rewrite <- !app_assoc.
    + rewrite findall_own_block by done. cbn [List.map]. by rewrite IH.
    + rewrite findall_skip by by apply clear_of_plain.
      rewrite findall_skip by by apply scan_clear_sound.
      rewrite findall_skip by by apply clear_of_plain.
      rewrite findall_skip by by apply scan_clear_sound.
      done.
Qed.

End Blocks.

Lemma render_as_rag_block (inv : invocation) :
  render inv = block rag_open rag_close search_open search_close is_RAG inv.
Proof.
  unfold render, block, is_RAG. destruct (decide _).
  - by rewrite bool_decide_eq_true_2.
  - by rewrite bool_decide_eq_false_2.
Qed.

Lemma render_as_search_block (inv : invocation) :
  render inv
  = block search_open search_close rag_open rag_close
      (fun inv => negb (is_RAG inv)) inv.
Proof.
  unfold render, block, is_RAG. destruct (decide _).
  - by rewrite bool_decide_eq_true_2.
  - by rewrite bool_decide_eq_false_2.
Qed.

Lemma plan_text_blocks (f : invocation -> str) (items : list (str * invocation)) :
  (forall inv, render inv = f inv) ->
  List.map (fun item => fst item ++ render (snd item)) items
  = List.map (fun item => fst item ++ f (snd item)) items.
Proof. intros H. apply List.map_ext. intros item. by rewrite H. Qed.

Lemma reparse_rag (invs : list invocation) :
  Forall plain_invocation invs ->
  List.map (fun m => mk_invocation (py "RAG") (strip m))
    (List.map inv_query (List.filter is_RAG invs))
  = List.filter is_RAG invs.
Proof.
  induction 1 as [|inv invs (_ & _ & Hs) _ IH]; [done|].
  cbn [List.filter]. destruct (is_RAG inv) eqn:Hr; [|done].
  cbn [List.map]. rewrite IH, Hs. f_equal.
  apply bool_decide_eq_true_1 in Hr. destruct inv. simpl in *. by subst.
Qed.

Lemma reparse_search (invs : list invocation) :
  Forall plain_invocation invs ->
  List.map (fun m => mk_invocation (py "InternetSearch") (strip m))
    (List.map inv_query (List.filter (fun inv => negb (is_RAG inv)) invs))
  = List.filter is_InternetSearch invs.
Proof.
  induction 1 as [|inv invs (Ht & _ & Hs) _ IH]; [done|].
  cbn [List.filter]. unfold is_RAG at 1, is_InternetSearch at 1.
  destruct Ht as [Ht|Ht].
  - rewrite bool_decide_eq_true_2 by done.
    rewrite bool_decide_eq_false_2 by (by rewrite Ht). done.
  - rewrite bool_decide_eq_false_2 by (by rewrite Ht).
    rewrite bool_decide_eq_true_2 by done.
    cbn [negb List.map]. rewrite IH, Hs. f_equal.
    destruct inv. simpl in *. by subst.
Qed.

(** [_parse_tool_invocations] reads back a planner output written in the
    format it expects.  For invocations of the two tools whose queries have
    no [<] and no white space at their ends, written one after the other
    with text without [<] before each and at the end, the result is the RAG
    invocations in their order followed by the InternetSearch invocations
    in their order. *)
Theorem plan_round_trip (items : list (str * invocation)) (trailer : str) :
  Forall (fun item =>
            free_of lt_sign (fst item) = true
            /\ plain_invocation (snd item)) items ->
  free_of lt_sign trailer = true ->
  _parse_tool_invocations (Some (plan_text items trailer))
  = List.filter is_RAG (List.map snd items)
    ++ List.filter is_InternetSearch (List.map snd items).
Proof.
  intros Hitems Htrailer.
  assert (Hfree : Forall (fun item =>
                    free_of lt_sign (fst item) = true
                    /\ free_of lt_sign (inv_query (snd item)) = true) items).
  { eapply Forall_impl; [exact Hitems|]. by intros item (? & _ & ? & _). }
  assert (Hplain : Forall plain_invocation (List.map snd items)).
  { apply Forall_fmap. eapply Forall_impl; [exact Hitems|].
    by intros item [_ ?]. }
  unfold _parse_tool_invocations, plan_text. f_equal.
  - rewrite (plan_text_blocks _ items render_as_rag_block).
    rewrite (findall_blocks rag_open rag_close search_open search_close)
      by (done || by eexists).
    by apply reparse_rag.
  - rewrite (plan_text_blocks _ items render_as_search_block).
    rewrite (findall_blocks search_open search_close rag_open rag_close)
      by (done || by eexists).
    by apply reparse_search.
Qed.

Lemma groups_parts (opening closing s : str) (gs : list str) :
  closing <> [] -> groups opening closing s gs ->
  Forall (fun g => part_of g s /\ contains closing g = false) gs.
Proof.
  intros Hc. induction 1 as [|pre body post gs _ Hshort _ IH]; [constructor|].
  constructor.
  - split; [by exists (pre ++ opening), (closing ++ post);
              rewrite <- !app_assoc|].
    apply not_true_is_false. intros (x & y & ->)%contains_iff.
    specialize (Hshort x (y ++ closing ++ post)).
    rewrite <- !app_assoc in Hshort. specialize (Hshort eq_refl).
    rewrite !length_app in Hshort. destruct closing; [done|].
    simpl in Hshort. lia.
  - eapply Forall_impl; [exact IH|]. intros g [Hg Hn]. split; [|done].
    eapply part_of_trans; [exact Hg|].
    exists (pre ++ opening ++ body ++ closing), [].
    by rewrite app_nil_r, <- !app_assoc.
Qed.

Lemma stripped_groups (opening closing s : str) (tool : str) :
  opening <> [] -> closing <> [] ->
  Forall (fun inv =>
            inv_tool inv = tool
            /\ contains (inv_query inv) s = true
            /\ contains closing (inv_query inv) = false)
    (List.map (fun m => mk_invocation tool (strip m))
       (findall opening closing s)).
Proof.
  intros Ho Hc. apply Forall_fmap.
  eapply Forall_impl;
    [apply (groups_parts opening closing s); [done|by apply findall_groups]|].
  intros g [Hg Hn]. cbn. split; [done|]. split.
  - apply part_of_contains. eapply part_of_trans; [apply part_of_strip|done].
  - eapply contains_part_false; [apply part_of_strip|done].
Qed.

(** [_parse_tool_invocations]: every invocation it returns names one of
    the two tools, and its query is a contiguous part of the planner output
    that does not contain the closing tag of its kind. *)
Theorem extracted_queries_come_from_response (response : str) :
  Forall (fun inv =>
            contains (inv_query inv) response = true
            /\ ((inv_tool inv = py "RAG"
                 /\ contains rag_close (inv_query inv) = false)
                \/ (inv_tool inv = py "InternetSearch"
                    /\ contains search_close (inv_query inv) = false)))
    (_parse_tool_invocations (Some response)).
Proof.
  unfold _parse_tool_invocations. apply Forall_app. split.
  - eapply Forall_impl;
      [apply (stripped_groups rag_open rag_close response (py "RAG"));
       done|].
    intros inv (Ht & Hin & Hn). split; [done|]. by left.
  - eapply Forall_impl;
      [apply (stripped_groups search_open search_close response
                (py "InternetSearch")); done|].
    intros inv (Ht & Hin & Hn). split; [done|]. by right.
Qed.

(** ** Health check *)

(** [health_check] never raises, and its overall status is always
    [healthy] or [degraded]: the status [unhealthy] of the last branch is
    never reported.  The status is [healthy] exactly when the chat check
    is, whether or not web search is available. *)
Theorem health_is_healthy_or_degraded {W} (E : Env W) (w : W) :
  exists h w',
    HealthCheck.health_check E w = (Ok h, w')
    /\ (HealthCheck.status h = py "healthy"
        \/ HealthCheck.status h = py "degraded")
    /\ (HealthCheck.status h = py "healthy"
        <-> HealthCheck.fanar h = py "healthy")
    /\ (HealthCheck.tavily h
        = if TavilyService.is_available E
          then py "healthy" else py "unavailable").
Proof.
  unfold HealthCheck.health_check, bind at 1.
  destruct (now_returns E w) as (ts & w1 & ->).
  unfold bind, try_except, ret.
  destruct (FanarService.simple_chat E _ _ w1) as [[r|e] w2].
  - destruct (HealthCheck.truthy r), (TavilyService.is_available E);
      eexists _, _; (split; [reflexivity|]); cbn; repeat split; auto; done.
  - destruct (TavilyService.is_available E);
      eexists _, _; (split; [reflexivity|]); cbn; repeat split; auto; done.
Qed.

(** ** A chat backend that answers without content *)

(** A chat backend that answers every call with a reply without content,
    with the planner not in thinking mode: the rewriter falls back on the
    original query with the note of a parsing error, the planner plans
    nothing, and the final answer is the fallback answer for an empty
    plan. *)
Theorem silent_backend_degrades_every_stage {W} (E : Env W)
  (self : Orchestrator.t) (request : QueryRequest.t) (mode : option bool)
  (w : W) :
  chat_silent E ->
  default (tool_usage_agent_mode self) mode = false ->
  exists response w',
    Orchestrator.process_query E self request mode w = (Ok response, w')
    /\ SystemResponse.rewritten_query response
       = Some (RewrittenQuery.mk (QueryRequest.query request)
                 (QueryRequest.query request)
                 [py "Error in parsing (using original query)"])
    /\ SystemResponse.final_answer response
       = FinalAnswer.mk (apology (py "No tool invocations generated"))
           0%Q (py "Error fallback") no_references.
Proof.
  intros Hsilent Hmode. destruct (time_time E w) as [t0 w1] eqn:Ht.
  assert (Hrw : exists w2,
             rewrite_query E (QueryRequest.query request) w1
             = (Ok (RewrittenQuery.mk (QueryRequest.query request)
                      (QueryRequest.query request)
                      [py "Error in parsing (using original query)"]), w2)).
  { unfold rewrite_query, FanarService.simple_chat, try_except, bind.
    destruct (Hsilent
                [Message.mk (py "user")
                   (QUERY_REWRITER_PROMPT E (QueryRequest.query request))]
                (or_default None settings.max_tokens_default) w1)
      as (w2 & ->). by exists w2. }
  destruct Hrw as (w2 & Hrw).
  assert (Hget : exists w3,
             _get_tool_invocations E (QueryRequest.query request)
               (default (tool_usage_agent_mode self) mode) w2
             = (Ok [], w3)).
  { rewrite Hmode.
    unfold _get_tool_invocations, FanarService.simple_chat, try_except, bind.
    destruct (Hsilent
                [Message.mk (py "user")
                   (TOOL_USAGE_PROMPT E (QueryRequest.query request))]
                (or_default None settings.max_tokens_default) w2)
      as (w3 & ->). by exists w3. }
  destruct Hget as (w3 & Hget).
  rewrite (process_query_no_invocations E self request mode w w1 w2 w3 t0 _
             Ht Hrw Hget).
  eexists _, _. by split.
Qed.

(** ** Results of retrieval *)

(** [islamic_rag], by the outcome of the retrieval request.  A reply with
    content gives a result with that content, one reference per raw
    reference in the same order, each flagged by [_validate_islamic_source]
    on its own source, [sources_used] holding every source of the
    references exactly once, and confidence 0.  A reply without content and
    a failed request both raise. *)
Theorem retrieval_result_shape {W} (E : Env W) (query : list N) (w : W) :
  set_like E ->
  match requests_post_rag E query settings.max_tokens_rag w with
  | (Ok (Some content, raw), w') =>
      exists result,
        FanarService.islamic_rag E query w = (Ok result, w')
        /\ RAGResult.content result = content
        /\ List.map ReferenceMaterial.source (RAGResult.references result)
           = List.map raw_source raw
        /\ Forall (fun ref =>
                     ReferenceMaterial.is_authentic_source ref
                     = FanarService._validate_islamic_source E
                         (ReferenceMaterial.source ref))
             (RAGResult.references result)
        /\ NoDup (RAGResult.sources_used result)
        /\ (forall s,
              s ∈ RAGResult.sources_used result
              <-> s ∈ List.map raw_source raw)
        /\ RAGResult.confidence_score result = 0%Q
  | (Ok (None, _), w') =>
      FanarService.islamic_rag E query w = (Raise (validation_error E), w')
  | (Raise e, w') => FanarService.islamic_rag E query w = (Raise e, w')
  end.
Proof.
  intros Hset. unfold FanarService.islamic_rag, try_except, bind.
  destruct (requests_post_rag E query settings.max_tokens_rag w)
    as [[[[content|] raw]|e] w']; try reflexivity.
  eexists. split; [reflexivity|].
  cbn [fst snd RAGResult.content RAGResult.references RAGResult.sources_used
         RAGResult.confidence_score].
  assert (Hsrc : List.map ReferenceMaterial.source
                   (FanarService._parse_enhanced_references E raw)
                 = List.map raw_source raw).
  { unfold FanarService._parse_enhanced_references.
    rewrite List.map_map. reflexivity. }
  repeat split.
  - exact Hsrc.
  - unfold FanarService._parse_enhanced_references.
    apply Forall_forall. intros ref Href.
    apply list_elem_of_In, in_map_iff in Href as (r & <- & _). reflexivity.
  - apply Hset.
  - intros Hs. rewrite <- Hsrc. exact (proj1 (proj2 (Hset _) s) Hs).
  - intros Hs. rewrite <- Hsrc in Hs. exact (proj2 (proj2 (Hset _) s) Hs).
Qed.

Lemma retrieval_result_witness :
  exists result,
    FanarService.islamic_rag env_same_source fasting_query 0 = (Ok result, 0)
    /\ RAGResult.content result = py "X"
    /\ List.map ReferenceMaterial.source (RAGResult.references result)
       = List.map raw_source (snd same_source_reply)
    /\ Forall (fun ref =>
                 ReferenceMaterial.is_authentic_source ref
                 = FanarService._validate_islamic_source env_same_source
                     (ReferenceMaterial.source ref))
         (RAGResult.references result)
    /\ NoDup (RAGResult.sources_used result)
    /\ (forall s,
          s ∈ RAGResult.sources_used result
          <-> s ∈ List.map raw_source (snd same_source_reply))
    /\ RAGResult.confidence_score result = 0%Q.
Proof.
  apply (retrieval_result_shape env_same_source fasting_query 0).
  intros l. split; [apply NoDup_remove_dups|].
  intros x. apply elem_of_remove_dups.
Defined.

(** ** Runs of the further properties *)

Lemma marker_gets_its_origin_witness :
  let answer :=
    _replace_reference_tags
      (py "See <Internet id=1>the fatwa</Internet> and <RAG id=2>.")
      refs_both in
  contains (py "[" ++ py "https://a.example" ++ py "]") answer = true
  /\ contains (open_Internet 1) answer = false.
Proof.
  apply (proj2 (marker_gets_its_origin
                  (py "See <Internet id=1>the fatwa</Internet> and <RAG id=2>.")
                  (py "https://a.example") 0 refs_both eq_refl eq_refl));
    vm_compute; reflexivity.
Defined.

Lemma marker_out_of_range_witness :
  _replace_reference_tags (py "See " ++ open_RAG 3 ++ py ".") refs_two
  = _replace_reference_tags (py "See ") refs_two ++ open_RAG 3
    ++ _replace_reference_tags (py ".") refs_two.
Proof.
  apply (proj1 (marker_out_of_range_stays (py "See ") (py ".") 3 refs_two)).
  right. vm_compute. lia.
Defined.

Lemma web_record_numbering_witness :
  let prepared :=
    _prepare_synthesis_input_from_tool_results (py "Is insulin allowed?")
      [mk_tool_result InternetSearch (py "fatwa on insulin")
         (Web_output
            (WebSearchResult.mk (py "X") [hit_a; hit_b]
               (py "fatwa on insulin")))] in
  contains (internet_line 2 hit_b) (fst prepared) = true
  /\ default [] (snd prepared !! InternetSearch) !! 1 = Some (hit_url hit_b).
Proof.
  apply (web_record_numbering_agrees (py "Is insulin allowed?")
           (py "fatwa on insulin") (py "X") [hit_a; hit_b] 1 hit_b).
  reflexivity.
Defined.

Lemma web_unavailable_witness :
  exists result w',
    ToolUsageAgent.process_query env_working false fasting_query None 0
    = (Ok result, w')
    /\ Forall (fun r => tr_tool r = RAG) (tool_results result)
    /\ web_result result = None.
Proof.
  apply (web_unavailable_drops_web_invocations env_working false
           fasting_query None 0).
  reflexivity.
Defined.

Lemma failed_invocations_witness :
  exists w',
    ToolUsageAgent.process_query env_planning_only false fasting_query None 0
    = (Ok (mk_agent_result true None None
             [mk_invocation (py "RAG") (py "conditions invalidating fasting");
              mk_invocation (py "InternetSearch") (py "fatwa on insulin")]
             [] None None false), w').
Proof.
  apply (failed_invocations_are_not_a_failure env_planning_only false
           fasting_query None 0 0).
  - reflexivity.
  - intros query max_tokens w. by exists (py "Connection error."), w.
  - vm_compute. reflexivity.
Defined.

Lemma result_pointers_witness :
  exists result w',
    ToolUsageAgent.process_query env_working false fasting_query None 0
    = (Ok result, w')
    /\ points_to_last (rag_result result)
         (omap record_rag (tool_results result))
    /\ points_to_last (web_result result)
         (omap record_web (tool_results result)).
Proof.
  eexists _, _.
  refine (let H := _ in
          conj H (result_pointers_point_to_last_records env_working false
                    fasting_query None 0 _ _ H)).
  reflexivity.
Defined.

Lemma effective_mode_witness :
  Orchestrator.process_query env_working (Orchestrator.mk true true)
    request_fast (Some false) 0
  = Orchestrator.process_query env_working (Orchestrator.mk false false)
      request_fast None 0.
Proof.
  apply (response_depends_on_effective_mode env_working); reflexivity.
Defined.

Lemma thinking_chat_single_round_witness :
  FanarService.thinking_chat (env_chatty "Eating breaks the fast.")
    (py "What breaks a fast?") None 0
  = (Ok (Some (py "Eating breaks the fast.")), 0).
Proof.
  apply (thinking_chat_single_round (env_chatty "Eating breaks the fast.")
           (py "What breaks a fast?") None 0 (py "Eating breaks the fast.")
           (py "stop") 0).
  - reflexivity.
  - vm_compute. reflexivity.
  - vm_compute. discriminate.
Defined.

Lemma thinking_chat_second_round_witness :
  exists thinking,
    thinking_part (py "Recall the rulings.</think>Eating.") thinking
    /\ FanarService.thinking_chat
         (env_chatty "Recall the rulings.</think>Eating.")
         (py "What breaks a fast?") None 0
       = match requests_post_chat
                 (env_chatty "Recall the rulings.</think>Eating.")
                 [Message.mk (py "user") (py "What breaks a fast?");
                  Message.mk (py "thinking") thinking]
                 settings.max_tokens_default 0 with
         | (Ok final_response, w2) => (Ok (fst final_response), w2)
         | (Raise e, w2) => (Raise e, w2)
         end.
Proof.
  apply (thinking_chat_second_round
           (env_chatty "Recall the rulings.</think>Eating.")
           (py "What breaks a fast?") None 0
           (py "Recall the rulings.</think>Eating.") (py "stop") 0).
  - reflexivity.
  - left. vm_compute. reflexivity.
Defined.

Lemma unstructured_reply_witness :
  _parse_response (Some (py "Sure, here is a better query."))
    (py " What breaks a fast? ")
  = (py "What breaks a fast?", [default_improvement]).
Proof.
  apply (unstructured_reply_keeps_query (py "Sure, here is a better query.")
           (py " What breaks a fast? ")); vm_compute; reflexivity.
Defined.

Lemma corrupted_bullet_witness :
  exists improvement,
    parse_line (mk_state (py "q") [] (Some sec_improvements))
      (bullet ++ py " Added Islamic terms")
    = Ok (mk_state (py "q") [improvement] (Some sec_improvements))
    /\ startswith [8364%N; 162%N] improvement = true.
Proof.
  apply (corrupted_bullet_half_stripped
           (mk_state (py "q") [] (Some sec_improvements))
           (py " Added Islamic terms")); vm_compute; reflexivity.
Defined.

Lemma plan_round_trip_witness :
  _parse_tool_invocations (Some (plan_text two_item_plan (py " Done.")))
  = [mk_invocation (py "RAG") (py "what breaks the fast");
     mk_invocation (py "InternetSearch") (py "fatwa on insulin")].
Proof.
  apply (plan_round_trip two_item_plan (py " Done.")).
  - constructor; [|constructor; [|constructor]].
    + split; [reflexivity|]. split; [right; reflexivity|].
      split; vm_compute; reflexivity.
    + split; [reflexivity|]. split; [left; reflexivity|].
      split; vm_compute; reflexivity.
  - vm_compute. reflexivity.
Defined.

Lemma silent_backend_witness :
  exists response w',
    Orchestrator.process_query env_silent (Orchestrator.mk true true)
      request_fast (Some false) 0 = (Ok response, w')
    /\ SystemResponse.rewritten_query response
       = Some (RewrittenQuery.mk (py "What breaks a fast?")
                 (py "What breaks a fast?")
                 [py "Error in parsing (using original query)"])
    /\ SystemResponse.final_answer response
       = FinalAnswer.mk (apology (py "No tool invocations generated"))
           0%Q (py "Error fallback") no_references.
Proof.
  apply (silent_backend_degrades_every_stage env_silent
           (Orchestrator.mk true true) request_fast (Some false) 0).
  - intros messages max_tokens w. by exists w.
  - reflexivity.
Defined.

